(** * The long-running operation client of the churn-prediction wizard

    A shallow embedding of [services/api.ts] (the two SSE stream readers
    [trainModelStream] and [predictStream]), [services/http.ts] (the
    request executor) and [utils/errors.ts] (the error normaliser), with
    the properties of the operation client stated and proved over it.

    JavaScript strings are sequences of UTF-16 code units, bytes are
    [Byte.byte], JSON values are an inductive type.  The promise of a
    stream call is modelled by the list of calls its [resolve] and
    [reject] received; the progress callback by the list of calls it
    received. *)

From Stdlib Require Import ZArith List Bool Strings.String Strings.Ascii Strings.Byte Lia.
Import ListNotations.
Open Scope list_scope.
Open Scope Z_scope.

(** ** JavaScript string primitives used by the client *)

Module JS.

(** A string value: its UTF-16 code units, in order. *)
Definition jsstring := list Z.

Definition LF : Z := 10.
Definition CR : Z := 13.

(** An ASCII literal. *)
Definition lit (s : string) : jsstring :=
  map (fun a => Z.of_N (N_of_ascii a)) (list_ascii_of_string s).

(** Test-vector notation: an ASCII literal in which ['] stands for the
    double quote and [|] for a line feed. *)
Definition tv (s : string) : jsstring :=
  map (fun c => if c =? 39 then 34 else if c =? 124 then LF else c) (lit s).

Fixpoint eqs (a b : jsstring) : bool :=
  match a, b with
  | [], [] => true
  | x :: a', y :: b' => (x =? y) && eqs a' b'
  | _, _ => false
  end.

(** [s] is truthy: a string is falsy exactly when it is empty. *)
Definition nonEmpty (s : jsstring) : bool :=
  match s with [] => false | _ :: _ => true end.

(** [s.startsWith(p)] *)
Fixpoint startsWith (s p : jsstring) {struct p} : bool :=
  match p, s with
  | [], _ => true
  | _ :: _, [] => false
  | c :: p', d :: s' => (c =? d) && startsWith s' p'
  end.

Fixpoint indexOf_from (s needle : jsstring) (i : Z) : Z :=
  if startsWith s needle then i
  else match s with
       | [] => -1
       | _ :: s' => indexOf_from s' needle (i + 1)
       end.

(** [s.indexOf(needle)]: the first position of [needle], or [-1]. *)
Definition indexOf (s needle : jsstring) : Z := indexOf_from s needle 0.

(** [s.includes(needle)] *)
Definition includes (s needle : jsstring) : bool := 0 <=? indexOf s needle.

(** [s.slice(start, end)]; [end_ = None] is the one-argument form.
    Negative positions count from the end, all positions are clamped. *)
Definition slice (s : jsstring) (start : Z) (end_ : option Z) : jsstring :=
  let len := Z.of_nat (List.length s) in
  let clamp k := if k <? 0 then Z.max (len + k) 0 else Z.min k len in
  let from := clamp start in
  let to := match end_ with None => len | Some e => clamp e end in
  firstn (Z.to_nat (to - from)) (skipn (Z.to_nat from) s).

(** White space and line terminators, as [String.prototype.trim] sees them. *)
Definition isWhiteSpace (c : Z) : bool :=
  (c =? 9) || (c =? 10) || (c =? 11) || (c =? 12) || (c =? 13) || (c =? 32)
  || (c =? 160) || (c =? 5760) || ((8192 <=? c) && (c <=? 8202))
  || (c =? 8232) || (c =? 8233) || (c =? 8239) || (c =? 8287)
  || (c =? 12288) || (c =? 65279).

Fixpoint trimStart (s : jsstring) : jsstring :=
  match s with
  | [] => []
  | c :: s' => if isWhiteSpace c then trimStart s' else s
  end.

Definition trimEnd (s : jsstring) : jsstring := rev (trimStart (rev s)).

(** [s.trim()] *)
Definition trim (s : jsstring) : jsstring := trimEnd (trimStart s).

Fixpoint splitLines_from (cur s : jsstring) : list jsstring :=
  match s with
  | [] => [rev cur]
  | c :: s' =>
      if c =? LF then rev cur :: splitLines_from [] s'
      else match s' with
           | d :: s'' =>
               if (c =? CR) && (d =? LF) then rev cur :: splitLines_from [] s''
               else splitLines_from (c :: cur) s'
           | [] => splitLines_from (c :: cur) s'
           end
  end.

(** [s.split(/\r?\n/)]: the separator is a line feed, with the carriage
    return before it when there is one. *)
Definition splitLines (s : jsstring) : list jsstring := splitLines_from [] s.

(** [l.join(sep)] *)
Fixpoint join (sep : jsstring) (l : list jsstring) : jsstring :=
  match l with
  | [] => []
  | [x] => x
  | x :: l' => x ++ sep ++ join sep l'
  end.

End JS.

(** ** The platform's UTF-8 [TextDecoder], used in streaming mode

    [decoder.decode(value, { stream: true })] runs the UTF-8 decoder of
    the Encoding standard over the bytes of [value] and keeps its state
    (an unfinished multi-byte sequence, the byte-order-mark flag) for the
    next call.  The stream readers never call [decode] without
    [stream: true], so the end-of-input flush is never run. *)

Module Text.
Import JS.

Record Utf8State := {
  codePoint : Z;
  bytesSeen : Z;
  bytesNeeded : Z;
  lowerBoundary : Z;
  upperBoundary : Z
}.

Record TextDecoder := {
  utf8 : Utf8State;
  bomSeen : bool
}.

Definition utf8Initial : Utf8State :=
  {| codePoint := 0; bytesSeen := 0; bytesNeeded := 0;
     lowerBoundary := 0x80; upperBoundary := 0xBF |}.

(** [new TextDecoder()] *)
Definition newTextDecoder : TextDecoder :=
  {| utf8 := utf8Initial; bomSeen := false |}.

Definition REPLACEMENT : Z := 0xFFFD.

(** The decoder's handler on a byte when no sequence is open. *)
Definition lead (st : Utf8State) (b : Z) : Utf8State * list Z :=
  if b <=? 0x7F then (st, [b])
  else if (0xC2 <=? b) && (b <=? 0xDF) then
    ({| codePoint := Z.land b 0x1F; bytesSeen := bytesSeen st; bytesNeeded := 1;
        lowerBoundary := lowerBoundary st; upperBoundary := upperBoundary st |}, [])
  else if (0xE0 <=? b) && (b <=? 0xEF) then
    ({| codePoint := Z.land b 0xF; bytesSeen := bytesSeen st; bytesNeeded := 2;
        lowerBoundary := if b =? 0xE0 then 0xA0 else lowerBoundary st;
        upperBoundary := if b =? 0xED then 0x9F else upperBoundary st |}, [])
  else if (0xF0 <=? b) && (b <=? 0xF4) then
    ({| codePoint := Z.land b 0x7; bytesSeen := bytesSeen st; bytesNeeded := 3;
        lowerBoundary := if b =? 0xF0 then 0x90 else lowerBoundary st;
        upperBoundary := if b =? 0xF4 then 0x8F else upperBoundary st |}, [])
  else (st, [REPLACEMENT]).

(** The decoder's handler: the new state and the code points emitted.
    A byte that cannot continue the open sequence closes it with the
    replacement character and is then handled again as a first byte. *)
Definition handler (st : Utf8State) (b : Z) : Utf8State * list Z :=
  if bytesNeeded st =? 0 then lead st b
  else if (b <? lowerBoundary st) || (upperBoundary st <? b) then
    let (st', out) := lead utf8Initial b in (st', REPLACEMENT :: out)
  else
    let cp := Z.lor (Z.shiftl (codePoint st) 6) (Z.land b 0x3F) in
    if bytesSeen st + 1 =? bytesNeeded st then (utf8Initial, [cp])
    else ({| codePoint := cp; bytesSeen := bytesSeen st + 1;
             bytesNeeded := bytesNeeded st;
             lowerBoundary := 0x80; upperBoundary := 0xBF |}, []).

Fixpoint process (st : Utf8State) (input : list byte) : Utf8State * list Z :=
  match input with
  | [] => (st, [])
  | b :: rest =>
      let (st1, out1) := handler st (Z.of_N (Byte.to_N b)) in
      let (st2, out2) := process st1 rest in
      (st2, out1 ++ out2)
  end.

(** A code point as UTF-16 code units. *)
Definition utf16 (cp : Z) : jsstring :=
  if cp <=? 0xFFFF then [cp]
  else let c := cp - 0x10000 in
       [0xD800 + Z.shiftr c 10; 0xDC00 + Z.land c 0x3FF].

(** Serialising the decoded code points drops one leading U+FEFF. *)
Fixpoint serialize (bom : bool) (cps : list Z) : bool * jsstring :=
  match cps with
  | [] => (bom, [])
  | cp :: rest =>
      let (bom', out) := serialize true rest in
      (bom', if negb bom && (cp =? 0xFEFF) then out else utf16 cp ++ out)
  end.

(** [decoder.decode(value, { stream: true })] *)
Definition decode (d : TextDecoder) (value : list byte) : TextDecoder * jsstring :=
  let (st, cps) := process (utf8 d) value in
  let (bom, text) := serialize (bomSeen d) cps in
  ({| utf8 := st; bomSeen := bom |}, text).

(** The bytes of an ASCII test vector ([tv] notation). *)
Definition bytes (s : string) : list byte :=
  map (fun c => match Byte.of_N (Z.to_N c) with Some b => b | None => x00 end) (tv s).

End Text.

(** ** JSON values and [JSON.parse] *)

Module Json.
Import JS.

(** A number value.  [Finite m e] is the number [m * 10^e]; every finite
    double has such a form, and [JSON.parse] gives only doubles.
    Not-a-number never comes out of JSON text. *)
Inductive number :=
| Finite (mantissa exponent : Z)
| Infinity (negative : bool).

Unset Elimination Schemes.
Inductive JSValue :=
| JUndefined
| JNull
| JBool (b : bool)
| JNumber (n : number)
| JString (s : jsstring)
| JArray (items : list JSValue)
| JObject (fields : list (jsstring * JSValue)).
Set Elimination Schemes.

(** Truthiness, as [&&], [||] and [?:] test it. *)
Definition truthy (v : JSValue) : bool :=
  match v with
  | JUndefined | JNull => false
  | JBool b => b
  | JNumber (Finite m _) => negb (m =? 0)
  | JNumber (Infinity _) => true
  | JString s => nonEmpty s
  | JArray _ | JObject _ => true
  end.

(** [v.key] for a key that no built-in prototype defines ([pct],
    [message], [code], [trace_id], [details]): an own property of an
    object, the last one when the JSON text repeated the key, otherwise
    [undefined]. *)
Definition getProp (v : JSValue) (key : jsstring) : JSValue :=
  match v with
  | JObject fields =>
      fold_left (fun acc kv => if eqs (fst kv) key then snd kv else acc)
                fields JUndefined
  | _ => JUndefined
  end.

Definition typeofNumber (v : JSValue) : bool :=
  match v with JNumber _ => true | _ => false end.

Definition typeofString (v : JSValue) : bool :=
  match v with JString _ => true | _ => false end.

(** [typeof v === "object"] *)
Definition typeofObject (v : JSValue) : bool :=
  match v with JNull | JArray _ | JObject _ => true | _ => false end.

(** [a || b] *)
Definition orElse (a b : JSValue) : JSValue := if truthy a then a else b.

(** *** A reader for JSON text

    The grammar of ECMA-404 as [JSON.parse] accepts it.  The stream
    client is stated over an arbitrary parser; this one runs the
    examples. *)

Definition isJsonSpace (c : Z) : bool :=
  (c =? 32) || (c =? 9) || (c =? 10) || (c =? 13).

Fixpoint skipSpace (s : jsstring) : jsstring :=
  match s with
  | [] => []
  | c :: s' => if isJsonSpace c then skipSpace s' else s
  end.

Definition isDigit (c : Z) : bool := (48 <=? c) && (c <=? 57).

Fixpoint digits (s : jsstring) : list Z * jsstring :=
  match s with
  | [] => ([], [])
  | c :: s' =>
      if isDigit c then let (ds, r) := digits s' in (c - 48 :: ds, r)
      else ([], s)
  end.

Definition numeral (ds : list Z) : Z :=
  fold_left (fun acc d => 10 * acc + d) ds 0.

Definition dropChar (c : Z) (s : jsstring) : option jsstring :=
  match s with
  | d :: s' => if d =? c then Some s' else None
  | [] => None
  end.

(** The integer nearest to [num / den], the even one of two that are
    equally near. *)
Definition roundEven (num den : Z) : Z :=
  let q := num / den in
  let r := num mod den in
  if 2 * r <? den then q
  else if den <? 2 * r then q + 1
  else if Z.even q then q else q + 1.

(** [num / den / 2^k], as a fraction. *)
Definition scaled (num den k : Z) : Z * Z :=
  if 0 <=? k then (num, den * 2 ^ k) else (num * 2 ^ (- k), den).

(** [m * 10^e] with the zeros at the end of [m] taken into the
    exponent, as far as the exponent is negative. *)
Fixpoint reduced (fuel : nat) (m e : Z) : number :=
  match fuel with
  | O => Finite m e
  | S fuel' =>
      if (e <? 0) && (m mod 10 =? 0) then reduced fuel' (m / 10) (e + 1)
      else Finite m e
  end.

(** [n * 2^k] in decimal form: an integer with exponent zero, any other
    number with the largest exponent it can have. *)
Definition decimal (n k : Z) : number :=
  if n =? 0 then Finite 0 0
  else if 0 <=? k then Finite (n * 2 ^ k) 0
  else reduced (Z.to_nat (- k)) (n * 5 ^ (- k)) k.

(** The double that a numeric literal of value [m * 10^e], [0 <= m],
    denotes: the nearest one, the one with the even significand of two
    that are equally near, and infinity from [2^1024 - 2^970] on.  A
    double is [n * 2^k] with [n < 2^53] and [-1074 <= k <= 971]. *)
Definition toDouble (m e : Z) : number :=
  if m =? 0 then Finite 0 0
  else
    let (num, den) := if 0 <=? e then (m * 10 ^ e, 1) else (m, 10 ^ (- e)) in
    let k0 := Z.log2 num - Z.log2 den - 53 in
    let (n0, d0) := scaled num den k0 in
    let k1 := if 2 ^ 53 <=? n0 / d0 then k0 + 1 else k0 in
    let k := Z.max k1 (-1074) in
    let (n1, d1) := scaled num den k in
    let n := roundEven n1 d1 in
    if (n =? 2 ^ 53) && (971 <=? k) || (971 <? k) then Infinity false
    else decimal n k.

Definition negated (n : number) : number :=
  match n with
  | Finite m e => Finite (- m) e
  | Infinity negative => Infinity (negb negative)
  end.

(** [-? int frac? exp?] with no leading zero in a longer integer part;
    the value is the double that the literal denotes (the sign of a zero
    is not kept). *)
Definition parseNumber (s : jsstring) : option (number * jsstring) :=
  let (negative, s1) :=
    match dropChar 45 s with Some r => (true, r) | None => (false, s) end in
  let (ip, s2) := digits s1 in
  let leadingZero :=
    match ip with d :: _ :: _ => d =? 0 | _ => false end in
  if negb (nonEmpty ip) || leadingZero then None
  else
    let frac :=
      match dropChar 46 s2 with
      | Some r => let (fp, r') := digits r in
                  if nonEmpty fp then Some (fp, r') else None
      | None => Some ([], s2)
      end in
    match frac with
    | None => None
    | Some (fp, s3) =>
        let afterE :=
          match s3 with
          | c :: r => if (c =? 101) || (c =? 69) then Some r else None
          | [] => None
          end in
        let expo :=
          match afterE with
          | None => Some (0, s3)
          | Some r =>
              let (minus, r1) :=
                match dropChar 45 r with
                | Some r' => (true, r')
                | None => (false, match dropChar 43 r with Some r' => r' | None => r end)
                end in
              let (ep, r2) := digits r1 in
              if nonEmpty ep
              then Some (if minus then - numeral ep else numeral ep, r2)
              else None
          end in
        match expo with
        | None => None
        | Some (e, s4) =>
            let d := toDouble (numeral (ip ++ fp)) (e - Z.of_nat (List.length fp)) in
            Some (if negative then negated d else d, s4)
        end
    end.

Definition hexDigit (c : Z) : option Z :=
  if isDigit c then Some (c - 48)
  else if (97 <=? c) && (c <=? 102) then Some (c - 87)
  else if (65 <=? c) && (c <=? 70) then Some (c - 55)
  else None.

Definition hex4 (a b c d : Z) : option Z :=
  match hexDigit a, hexDigit b, hexDigit c, hexDigit d with
  | Some x, Some y, Some z, Some w => Some (((x * 16 + y) * 16 + z) * 16 + w)
  | _, _, _, _ => None
  end.

Definition unescape (e : Z) : option Z :=
  if (e =? 34) || (e =? 92) || (e =? 47) then Some e
  else if e =? 98 then Some 8
  else if e =? 102 then Some 12
  else if e =? 110 then Some 10
  else if e =? 114 then Some 13
  else if e =? 116 then Some 9
  else None.

(** The characters of a string literal, after its opening quote. *)
Fixpoint parseChars (s acc : jsstring) : option (jsstring * jsstring) :=
  match s with
  | [] => None
  | c :: s' =>
      if c =? 34 then Some (rev acc, s')
      else if c =? 92 then
        match s' with
        | [] => None
        | e :: s'' =>
            if e =? 117 then
              match s'' with
              | h1 :: h2 :: h3 :: h4 :: s3 =>
                  match hex4 h1 h2 h3 h4 with
                  | Some u => parseChars s3 (u :: acc)
                  | None => None
                  end
              | _ => None
              end
            else match unescape e with
                 | Some x => parseChars s'' (x :: acc)
                 | None => None
                 end
        end
      else if c <? 32 then None
      else parseChars s' (c :: acc)
  end.

Definition keyword (w : string) (v : JSValue) (s : jsstring)
  : option (JSValue * jsstring) :=
  if startsWith s (lit w)
  then Some (v, skipn (List.length (lit w)) s)
  else None.

Fixpoint parseValue (fuel : nat) (s : jsstring) {struct fuel}
  : option (JSValue * jsstring) :=
  match fuel with
  | O => None
  | S f =>
      match skipSpace s with
      | [] => None
      | c :: s' =>
          if c =? 123 then
            match dropChar 125 (skipSpace s') with
            | Some r => Some (JObject [], r)
            | None => parseMembers f s' []
            end
          else if c =? 91 then
            match dropChar 93 (skipSpace s') with
            | Some r => Some (JArray [], r)
            | None => parseElements f s' []
            end
          else if c =? 34 then
            match parseChars s' [] with
            | Some (str, r) => Some (JString str, r)
            | None => None
            end
          else if c =? 116 then keyword "true" (JBool true) (c :: s')
          else if c =? 102 then keyword "false" (JBool false) (c :: s')
          else if c =? 110 then keyword "null" JNull (c :: s')
          else match parseNumber (c :: s') with
               | Some (n, r) => Some (JNumber n, r)
               | None => None
               end
      end
  end
with parseElements (fuel : nat) (s : jsstring) (acc : list JSValue) {struct fuel}
  : option (JSValue * jsstring) :=
  match fuel with
  | O => None
  | S f =>
      match parseValue f s with
      | None => None
      | Some (v, r) =>
          match skipSpace r with
          | c :: r' =>
              if c =? 44 then parseElements f r' (v :: acc)
              else if c =? 93 then Some (JArray (rev (v :: acc)), r')
              else None
          | [] => None
          end
      end
  end
with parseMembers (fuel : nat) (s : jsstring) (acc : list (jsstring * JSValue))
  {struct fuel} : option (JSValue * jsstring) :=
  match fuel with
  | O => None
  | S f =>
      match dropChar 34 (skipSpace s) with
      | None => None
      | Some s1 =>
          match parseChars s1 [] with
          | None => None
          | Some (key, s2) =>
              match dropChar 58 (skipSpace s2) with
              | None => None
              | Some s3 =>
                  match parseValue f s3 with
                  | None => None
                  | Some (v, r) =>
                      match skipSpace r with
                      | c :: r' =>
                          if c =? 44 then parseMembers f r' ((key, v) :: acc)
                          else if c =? 125
                          then Some (JObject (rev ((key, v) :: acc)), r')
                          else None
                      | [] => None
                      end
                  end
              end
          end
      end
  end.

(** [JSON.parse(text)]; [None] when it throws a [SyntaxError]. *)
Definition parse (text : jsstring) : option JSValue :=
  match parseValue (2 * List.length text + 2) text with
  | Some (v, r) => if nonEmpty (skipSpace r) then None else Some v
  | None => None
  end.

End Json.

(** ** [utils/errors.ts]: the structured error shape and the fallback table *)

Module Errors.
Import JS Json.

Record ApiErrorShape := {
  message : jsstring;
  code : jsstring;
  trace_id : jsstring;
  details : JSValue
}.

Definition tryParseApiError (payload : JSValue) : option ApiErrorShape :=
  if negb (truthy payload) || negb (typeofObject payload) then None
  else
    let msg := getProp payload (lit "message") in
    let code := getProp payload (lit "code") in
    let traceId := getProp payload (lit "trace_id") in
    match msg, code, traceId with
    | JString m, JString c, JString t =>
        Some {| message := m; code := c; trace_id := t;
                details := getProp payload (lit "details") |}
    | _, _, _ => None
    end.

(** [status === k], for an optional status. *)
Definition statusIs (status : option Z) (k : Z) : bool :=
  match status with Some n => n =? k | None => false end.

Definition toUserErrorMessage (apiErr : option ApiErrorShape) (status : option Z)
  : jsstring :=
  if match apiErr with Some e => nonEmpty (message e) | None => false end
  then match apiErr with Some e => message e | None => [] end
  else if statusIs status 404 then lit "Not found."
  else if statusIs status 408 then lit "Request timed out. Please try again."
  else if statusIs status 413
       then lit "File is too large. Please upload a smaller file."
  else if statusIs status 422
       then lit "Invalid input. Please check the form and try again."
  else if match status with
          | Some n => negb (n =? 0) && (500 <=? n)
          | None => false
          end
       then lit "Server error. Please try again later."
  else lit "Something went wrong. Please try again.".

End Errors.

(** ** What [fetch] hands to the client *)

Module Fetch.
Import JS Json.

(** An [Error] object with the optional fields [http.ts] sets on it.
    [messageArg] is the argument [new Error] was built from; the message
    is its string conversion, the string itself for a [JString]. *)
Record HttpError := {
  messageArg : JSValue;
  status : option Z;
  code : option jsstring;
  traceId : option jsstring;
  details : JSValue
}.

(** [new Error(arg)] *)
Definition newError (arg : JSValue) : HttpError :=
  {| messageArg := arg; status := None; code := None; traceId := None;
     details := JUndefined |}.

(** A thrown value or a rejection reason. *)
Inductive Thrown :=
| Err (e : HttpError)
| SyntaxError (text : jsstring)
| Foreign (isError : bool) (name : jsstring) (message : jsstring).

(** One settled [reader.read()]. *)
Inductive ReadResult :=
| Chunk (value : list byte)
| Done
| ReadError (e : Thrown).

(** A response: its status, its content type header, the outcome of
    reading its body as text, and the reads its body stream will
    deliver ([None] when the response has no body). *)
Record Response := {
  ok : bool;
  resStatus : Z;
  contentType : option jsstring;
  text : Thrown + jsstring;
  body : option (list ReadResult)
}.

End Fetch.

(** ** [services/http.ts]: the request executor, from the fetch outcome on *)

Module Http.
Import JS Json Errors Fetch.

Inductive FetchOutcome :=
| Responded (res : Response)
| FetchThrew (e : Thrown).

Inductive Outcome :=
| Returned (v : JSValue)
| Threw (e : Thrown).

Section Request.

Variable JSON_parse : jsstring -> option JSValue.

(** [await res.json()] *)
Definition json (res : Response) : Thrown + JSValue :=
  match text res with
  | inl e => inl e
  | inr t => match JSON_parse t with
             | Some v => inr v
             | None => inl (SyntaxError t)
             end
  end.

Definition isJson (res : Response) : bool :=
  includes (match contentType res with
            | Some c => if nonEmpty c then c else []
            | None => []
            end) (lit "application/json").

(** The payload read from a response that is not [ok]. *)
Definition errorPayload (res : Response) : JSValue :=
  if isJson res
  then match json res with inr v => v | inl _ => JNull end
  else match text res with inr t => JString t | inl _ => JNull end.

(** The error thrown for a response that is not [ok]. *)
Definition errorOf (res : Response) : HttpError :=
  let apiErr := tryParseApiError (errorPayload res) in
  {| messageArg := JString (toUserErrorMessage apiErr (Some (resStatus res)));
     status := Some (resStatus res);
     code := option_map Errors.code apiErr;
     traceId := option_map Errors.trace_id apiErr;
     details := match apiErr with
                | Some e => Errors.details e
                | None => JUndefined
                end |}.

Definition tryBlock (o : FetchOutcome) : Outcome :=
  match o with
  | FetchThrew e => Threw e
  | Responded res =>
      if negb (ok res) then Threw (Err (errorOf res))
      else if negb (isJson res) then
        match text res with
        | inr t => Returned (JString t)
        | inl e => Threw e
        end
      else match json res with
           | inr v => Returned v
           | inl e => Threw e
           end
  end.

Definition isAbortError (e : Thrown) : bool :=
  match e with
  | Foreign _ name _ => eqs name (lit "AbortError")
  | _ => false
  end.

Definition instanceofError (e : Thrown) : bool :=
  match e with
  | Err _ | SyntaxError _ => true
  | Foreign isError _ _ => isError
  end.

Definition catchBlock (e : Thrown) : Thrown :=
  if isAbortError e then
    Err {| messageArg := JString (lit "Request timed out. Please try again.");
           status := Some 408; code := None; traceId := None;
           details := JUndefined |}
  else if instanceofError e then e
  else Err (newError (JString (lit "Network error. Please check your connection."))).

(** [HttpClient.request], given what [fetch] did. *)
Definition request (o : FetchOutcome) : Outcome :=
  match tryBlock o with
  | Returned v => Returned v
  | Threw e => Threw (catchBlock e)
  end.

End Request.

End Http.

(** ** [services/api.ts]: the two stream readers

    [trainModelStream] and [predictStream] are the same code up to their
    three messages; [Labels] holds those.  A [Session] is the state the
    closures of one call share: the text buffer, the decoder, the
    [settled] flag, and what the call has done to the outside so far
    (calls of the promise's [resolve] and [reject], calls of
    [onProgress]).  [frames] is a history variable: the event kind and
    joined data text of every frame the loop has parsed. *)

Module Api.
Import JS Json Text Fetch.

Record Labels := {
  initFailed : jsstring;
  ended : jsstring;
  failed : jsstring
}.

Definition trainLabels : Labels :=
  {| initFailed := lit "Failed to start training stream.";
     ended := lit "Training stream ended unexpectedly.";
     failed := lit "Training failed." |}.

Definition predictLabels : Labels :=
  {| initFailed := lit "Failed to start prediction stream.";
     ended := lit "Prediction stream ended unexpectedly.";
     failed := lit "Prediction failed." |}.

Inductive Settlement :=
| Resolved (data : JSValue)
| Rejected (err : Thrown).

(** One call [onProgress(pct, message)]. *)
Definition ProgressCall : Type := JSValue * JSValue.

(** The event kind and the joined data text of a frame. *)
Definition Frame : Type := jsstring * jsstring.

Record Session := {
  buffer : jsstring;
  decoder : TextDecoder;
  settled : bool;
  promise : list Settlement;
  progress : list ProgressCall;
  frames : list Frame
}.

Definition initial : Session :=
  {| buffer := []; decoder := newTextDecoder; settled := false;
     promise := []; progress := []; frames := [] |}.

Definition setBuffer (b : jsstring) (s : Session) : Session :=
  {| buffer := b; decoder := decoder s; settled := settled s;
     promise := promise s; progress := progress s; frames := frames s |}.

Definition setDecoder (d : TextDecoder) (s : Session) : Session :=
  {| buffer := buffer s; decoder := d; settled := settled s;
     promise := promise s; progress := progress s; frames := frames s |}.

Definition settle (o : Settlement) (s : Session) : Session :=
  {| buffer := buffer s; decoder := decoder s; settled := true;
     promise := promise s ++ [o]; progress := progress s; frames := frames s |}.

Definition recordProgress (c : ProgressCall) (s : Session) : Session :=
  {| buffer := buffer s; decoder := decoder s; settled := settled s;
     promise := promise s; progress := progress s ++ [c]; frames := frames s |}.

Definition recordFrame (f : Frame) (s : Session) : Session :=
  {| buffer := buffer s; decoder := decoder s; settled := settled s;
     promise := promise s; progress := progress s; frames := frames s ++ [f] |}.

Definition safeResolve (data : JSValue) (s : Session) : Session :=
  if settled s then s else settle (Resolved data) s.

Definition safeReject (err : Thrown) (s : Session) : Session :=
  if settled s then s else settle (Rejected err) s.

(** How a piece of the [then] callback ends: it runs to its end, it
    executes [return], or it throws. *)
Inductive Completion :=
| Normal (s : Session)
| Return (s : Session)
| Throw (e : Thrown) (s : Session).

(** The [for] loop over the lines of a frame: the event kind and the
    data lines it leaves. *)
Definition parseLines (lines : list jsstring) : jsstring * list jsstring :=
  fold_left
    (fun st line =>
       if startsWith line (lit "event:")
       then (trim (slice line 6 None), snd st)
       else if startsWith line (lit "data:")
       then (fst st, snd st ++ [trim (slice line 5 None)])
       else st)
    lines (lit "message", []).

Section Stream.

(** [JSON.parse]; [None] when it throws. *)
Variable JSON_parse : jsstring -> option JSValue.

Variable L : Labels.

(** The caller's callback, when given: from the calls it has received so
    far and the new call, what it throws, if anything. *)
Variable onProgress : option (list ProgressCall -> ProgressCall -> option Thrown).

(** The [if / else if] chain that dispatches one classified frame. *)
Definition dispatch (event : jsstring) (data : JSValue) (s : Session) : Completion :=
  if eqs event (lit "progress") && truthy data
     && typeofNumber (getProp data (lit "pct"))
  then
    let call := (getProp data (lit "pct"), getProp data (lit "message")) in
    match onProgress with
    | None => Normal s
    | Some callback =>
        match callback (progress s) call with
        | Some e => Throw e (recordProgress call s)
        | None => Normal (recordProgress call s)
        end
    end
  else if eqs event (lit "complete") && truthy data
  then Return (safeResolve data s)
  else if eqs event (lit "error") && truthy data
  then Return (safeReject
                 (Err (newError (orElse (getProp data (lit "message"))
                                        (JString (failed L))))) s)
  else Normal s.

(** One turn of the [while] loop, for [idx >= 0]. *)
Definition iteration (idx : Z) (s : Session) : Completion :=
  let raw := trim (slice (buffer s) 0 (Some idx)) in
  let s := setBuffer (slice (buffer s) (idx + 2) None) s in
  if nonEmpty raw then
    let lines := splitLines raw in
    let (event, dataLines) := parseLines lines in
    let dataStr := join [LF] dataLines in
    let s := recordFrame (event, dataStr) s in
    if nonEmpty dataStr then
      match JSON_parse dataStr with
      | None => Throw (SyntaxError dataStr) s
      | Some data => dispatch event data s
      end
    else dispatch event JNull s
  else Normal s.

(** The [while (idx >= 0)] loop.  Every turn takes the text up to the
    delimiter and the delimiter off the buffer, so the loop makes fewer
    turns than the buffer has characters: with [fuel] the length of the
    buffer, as [onChunk] runs it, the loop never runs out of fuel. *)
Fixpoint loop (fuel : nat) (s : Session) : Completion :=
  let idx := indexOf (buffer s) [LF; LF] in
  if 0 <=? idx then
    match fuel with
    | O => Normal s
    | S fuel' =>
        match iteration idx s with
        | Normal s' => loop fuel' s'
        | stop => stop
        end
    end
  else Normal s.

(** The [then] callback on a chunk: decode, append, run the loop. *)
Definition onChunk (value : list byte) (s : Session) : Completion :=
  let (d, txt) := decode (decoder s) value in
  let s := setBuffer (buffer s ++ txt) (setDecoder d s) in
  loop (List.length (buffer s)) s.

(** [pump], over the reads the body stream delivers.  When the list is
    exhausted the next read is still pending. *)
Fixpoint pump (reads : list ReadResult) (s : Session) : Session :=
  match reads with
  | [] => s
  | ReadError e :: _ => safeReject e s
  | Done :: _ => safeReject (Err (newError (JString (ended L)))) s
  | Chunk value :: rest =>
      match onChunk value s with
      | Normal s' => pump rest s'
      | Return s' => s'
      | Throw e s' => safeReject e s'
      end
  end.

(** What a stream call comes to: it threw before the promise was made,
    or it made the promise and started pumping. *)
Inductive Call :=
| InitFailed (e : Thrown)
| Started (s : Session).

Definition stream (res : Response) : Call :=
  match ok res, body res with
  | true, Some reads => Started (pump reads initial)
  | _, _ =>
      let txt := match text res with inr t => t | inl _ => [] end in
      InitFailed (Err (newError (JString (if nonEmpty txt then txt
                                          else initFailed L))))
  end.

(** The settlement the caller of a stream call observes, if any yet. *)
Definition outcome (c : Call) : option Settlement :=
  match c with
  | InitFailed e => Some (Rejected e)
  | Started s => hd_error (promise s)
  end.

End Stream.

Definition trainModelStream JSON_parse onProgress : Response -> Call :=
  stream JSON_parse trainLabels onProgress.

Definition predictStream JSON_parse onProgress : Response -> Call :=
  stream JSON_parse predictLabels onProgress.

End Api.

(** ** [config/env.ts]: the base URL *)

Module Env.
Import JS.

(** [s.endsWith(p)] *)
Definition endsWith (s p : jsstring) : bool := startsWith (rev s) (rev p).

(** [apiUrl(path)], with [env.API_BASE_URL] (read and trimmed once,
    when the module is loaded) as [base]. *)
Definition apiUrl (base path : jsstring) : jsstring :=
  let path := if negb (startsWith path (lit "/")) then lit "/" ++ path else path in
  if negb (nonEmpty base) then path
  else
    let trimmed :=
      if endsWith base (lit "/") then slice base 0 (Some (-1)) else base in
    trimmed ++ path.

End Env.

(** ** The platform's URL encoders

    [encodeURIComponent] and the serialiser of [URLSearchParams], as
    ECMA-262 and the URL standard define them: strings are read as
    UTF-16, written as UTF-8, and every byte outside a set of safe
    characters is written as a percent sign and two upper-case
    hexadecimal digits. *)

Module Url.
Import JS.

Definition isHighSurrogate (c : Z) : bool := (0xD800 <=? c) && (c <=? 0xDBFF).
Definition isLowSurrogate (c : Z) : bool := (0xDC00 <=? c) && (c <=? 0xDFFF).

(** The code points of a string; [None] stands for a surrogate that has
    no partner. *)
Fixpoint codePoints (s : jsstring) : list (option Z) :=
  match s with
  | [] => []
  | c :: s' =>
      if isHighSurrogate c then
        match s' with
        | d :: s'' =>
            if isLowSurrogate d
            then Some (0x10000 + (c - 0xD800) * 0x400 + (d - 0xDC00)) :: codePoints s''
            else None :: codePoints s'
        | [] => [None]
        end
      else if isLowSurrogate c then None :: codePoints s'
      else Some c :: codePoints s'
  end.

(** The string as a sequence of scalar values (the conversion that the
    platform applies to a string that [URLSearchParams] receives): a
    surrogate without partner becomes U+FFFD. *)
Definition usv (s : jsstring) : jsstring :=
  flat_map (fun cp => Text.utf16 (match cp with Some c => c | None => 0xFFFD end))
           (codePoints s).

(** The UTF-8 bytes of a code point. *)
Definition utf8Bytes (cp : Z) : list Z :=
  if cp <=? 0x7F then [cp]
  else if cp <=? 0x7FF then
    [0xC0 + Z.shiftr cp 6; 0x80 + Z.land cp 0x3F]
  else if cp <=? 0xFFFF then
    [0xE0 + Z.shiftr cp 12; 0x80 + Z.land (Z.shiftr cp 6) 0x3F; 0x80 + Z.land cp 0x3F]
  else
    [0xF0 + Z.shiftr cp 18; 0x80 + Z.land (Z.shiftr cp 12) 0x3F;
     0x80 + Z.land (Z.shiftr cp 6) 0x3F; 0x80 + Z.land cp 0x3F].

Definition hexChar (n : Z) : Z := if n <? 10 then 48 + n else 55 + n.

(** [%XX] *)
Definition percent (b : Z) : jsstring :=
  [37; hexChar (Z.shiftr b 4); hexChar (Z.land b 0xF)].

Definition isAlphaNumeric (c : Z) : bool :=
  ((48 <=? c) && (c <=? 57)) || ((65 <=? c) && (c <=? 90))
  || ((97 <=? c) && (c <=? 122)).

(** The characters [encodeURIComponent] leaves as they are: letters,
    digits and [- _ . ! ~ * ' ( )]. *)
Definition isUnescaped (c : Z) : bool :=
  isAlphaNumeric c
  || (c =? 45) || (c =? 95) || (c =? 46) || (c =? 33) || (c =? 126)
  || (c =? 42) || (c =? 39) || (c =? 40) || (c =? 41).

Fixpoint encodeCodePoints (cps : list (option Z)) : option jsstring :=
  match cps with
  | [] => Some []
  | None :: _ => None
  | Some cp :: rest =>
      match encodeCodePoints rest with
      | None => None
      | Some out =>
          Some ((if isUnescaped cp then [cp]
                 else flat_map percent (utf8Bytes cp)) ++ out)
      end
  end.

(** [encodeURIComponent(s)]; [None] when it throws a [URIError]. *)
Definition encodeURIComponent (s : jsstring) : option jsstring :=
  encodeCodePoints (codePoints s).

(** The bytes the form serialiser leaves as they are: letters, digits
    and [* - . _]. *)
Definition isFormSafe (b : Z) : bool :=
  isAlphaNumeric b || (b =? 42) || (b =? 45) || (b =? 46) || (b =? 95).

Definition formByte (b : Z) : jsstring :=
  if b =? 32 then [43]
  else if isFormSafe b then [b]
  else percent b.

(** A name or a value in [application/x-www-form-urlencoded] form; a
    surrogate without partner is written as U+FFFD. *)
Definition formEncode (s : jsstring) : jsstring :=
  flat_map
    (fun cp => flat_map formByte
                 (utf8Bytes (match cp with Some c => c | None => 0xFFFD end)))
    (codePoints s).

(** [params.toString()] *)
Fixpoint serializeParams (params : list (jsstring * jsstring)) : jsstring :=
  match params with
  | [] => []
  | [(k, v)] => formEncode k ++ [61] ++ formEncode v
  | (k, v) :: rest => formEncode k ++ [61] ++ formEncode v ++ [38] ++ serializeParams rest
  end.

(** [params.set(name, value)], for a name and a value that have been
    converted: the first pair of that name takes the value and the other
    pairs of that name go; without such a pair, the new pair is
    appended. *)
Fixpoint paramsSet (name value : jsstring) (params : list (jsstring * jsstring))
  : list (jsstring * jsstring) :=
  match params with
  | [] => [(name, value)]
  | (k, v) :: rest =>
      if eqs k name
      then (k, value) :: filter (fun kv => negb (eqs (fst kv) name)) rest
      else (k, v) :: paramsSet name value rest
  end.

End Url.

(** ** [services/http.ts]: the request executor, up to the call of [fetch] *)

Module Client.
Import JS Json Fetch Env Url.

(** A [Record<string, string>]: its own properties, in order. *)
Definition Headers : Type := list (jsstring * jsstring).

(** [o[k]] *)
Fixpoint objGet (o : Headers) (k : jsstring) : option jsstring :=
  match o with
  | [] => None
  | (k', v) :: rest => if eqs k' k then Some v else objGet rest k
  end.

(** [o[k] = v]: an existing property keeps its place. *)
Fixpoint objSet (k v : jsstring) (o : Headers) : Headers :=
  match o with
  | [] => [(k, v)]
  | (k', v') :: rest =>
      if eqs k' k then (k', v) :: rest else (k', v') :: objSet k v rest
  end.

(** [{ ...target, ...source }] *)
Definition assign (target source : Headers) : Headers :=
  fold_left (fun o kv => objSet (fst kv) (snd kv) o) source target.

Definition orEmpty (o : option Headers) : Headers :=
  match o with Some h => h | None => [] end.

Definition mergeHeaders (a b : option Headers) : Headers :=
  assign (assign [] (orEmpty a)) (orEmpty b).

(** A value of a query parameter. *)
Inductive QueryValue :=
| QString (s : jsstring)
| QNumber (n : number)
| QBoolean (b : bool)
| QUndefined
| QNull.

Definition isPresent (v : QueryValue) : bool :=
  match v with QUndefined | QNull => false | _ => true end.

Inductive HttpMethod := GET | POST | PUT | PATCH | DELETE.

(** The [body] of the options: a JSON-like value ([undefined] when the
    option is absent), or a [FormData] with the names of its fields. *)
Inductive AnyBody :=
| Plain (v : JSValue)
| FormData (names : list jsstring).

Definition hasBody (b : AnyBody) : bool :=
  match b with
  | Plain JUndefined | Plain JNull => false
  | _ => true
  end.

Record HttpOptions := {
  method : HttpMethod;
  path : jsstring;
  query : option (list (jsstring * QueryValue));
  headers : option Headers;
  body : AnyBody;
  rawBody : bool;
  timeoutMs : option number
}.

(** What is sent as the body. *)
Inductive BodyInit :=
| Raw (b : AnyBody)
| Text (s : jsstring).

(** The arguments of [fetch], but for the abort signal. *)
Record FetchInit := {
  url : jsstring;
  initMethod : HttpMethod;
  initHeaders : Headers;
  initBody : option BodyInit
}.

Section Client.

(** [String(n)] for a number. *)
Variable numberToString : number -> jsstring.

(** [JSON.stringify] *)
Variable JSON_stringify : AnyBody -> jsstring.

Variable JSON_parse : jsstring -> option JSValue.

(** [env.API_BASE_URL] *)
Variable base : jsstring.

(** The headers the client was constructed with. *)
Variable defaultHeaders : option Headers.

(** What [fetch] does with a request. *)
Variable fetch : FetchInit -> Http.FetchOutcome.

(** [String(v)] for a query value that is present. *)
Definition String_ (v : QueryValue) : jsstring :=
  match v with
  | QString s => s
  | QNumber n => numberToString n
  | QBoolean true => lit "true"
  | QBoolean false => lit "false"
  | QUndefined => lit "undefined"
  | QNull => lit "null"
  end.

(** The [URLSearchParams] that the loop of [buildQuery] fills. *)
Definition queryParams (entries : list (jsstring * QueryValue))
  : list (jsstring * jsstring) :=
  fold_left
    (fun params kv =>
       if isPresent (snd kv)
       then paramsSet (usv (fst kv)) (usv (String_ (snd kv))) params
       else params)
    entries [].

Definition buildQuery (query : option (list (jsstring * QueryValue))) : jsstring :=
  match query with
  | None => []
  | Some entries =>
      let s := serializeParams (queryParams entries) in
      if nonEmpty s then lit "?" ++ s else []
  end.

(** [request], up to the call of [fetch]: the URL, the headers and the
    body that are sent. *)
Definition prepare (opts : HttpOptions) : FetchInit :=
  let url := apiUrl base (path opts) ++ buildQuery (query opts) in
  let merged := mergeHeaders (Some (orEmpty defaultHeaders)) (headers opts) in
  if hasBody (body opts) then
    if rawBody opts then
      {| url := url; initMethod := method opts; initHeaders := merged;
         initBody := Some (Raw (body opts)) |}
    else
      {| url := url; initMethod := method opts;
         initHeaders :=
           objSet (lit "Content-Type")
                  (match objGet merged (lit "Content-Type") with
                   | Some v => v
                   | None => lit "application/json"
                   end) merged;
         initBody := Some (Text (JSON_stringify (body opts))) |}
  else
    {| url := url; initMethod := method opts; initHeaders := merged;
       initBody := None |}.

(** [HttpClient.request] *)
Definition request (opts : HttpOptions) : Http.Outcome :=
  Http.request JSON_parse (fetch (prepare opts)).

End Client.

End Client.

(** ** [services/api.ts]: the calls that are not streams *)

Module Calls.
Import JS Json Fetch Url Client.

Section Calls.

(** [HttpClient.request] of the shared client. *)
Variable request : HttpOptions -> Http.Outcome.

(** [String(v)], for the argument of an [Error] that is not a string. *)
Variable stringOf : JSValue -> jsstring.

(** The message of the [SyntaxError] that [JSON.parse] throws on a text. *)
Variable syntaxErrorText : jsstring -> jsstring.

(** [e.message]; an [Error] built from [undefined] has the empty
    message. *)
Definition messageText (e : Thrown) : jsstring :=
  match e with
  | Err h =>
      match messageArg h with
      | JString m => m
      | JUndefined => []
      | v => stringOf v
      end
  | SyntaxError t => syntaxErrorText t
  | Foreign _ _ m => m
  end.

Definition get (path : jsstring) : HttpOptions :=
  {| method := GET; path := path; query := None; headers := None;
     body := Plain JUndefined; rawBody := false; timeoutMs := None |}.

Definition tryGetTrainResponse (path : jsstring) : Http.Outcome :=
  request (get path).

(** What [encodeURIComponent] throws on a surrogate without partner. *)
Definition uriError : Thrown :=
  Foreign true (lit "URIError") (lit "URI malformed").

(** A call whose path ends in an encoded identifier. *)
Definition withId (prefix id : jsstring) : Http.Outcome :=
  match encodeURIComponent id with
  | None => Http.Threw uriError
  | Some encoded => request (get (prefix ++ encoded))
  end.

Definition getDatasetSummary (uploadId : jsstring) : Http.Outcome :=
  withId (lit "/datasets/summary/") uploadId.

Definition getModelSchema (modelId : jsstring) : Http.Outcome :=
  withId (lit "/models/schema/") modelId.

Definition getModelSummary (modelId : jsstring) : Http.Outcome :=
  withId (lit "/models/summary/") modelId.

Definition resetRuntimeState (includeModels : bool) : Http.Outcome :=
  request
    {| method := POST; path := lit "/admin/reset";
       query := Some [(lit "include_models",
                       QString (if includeModels then lit "true" else lit "false"))];
       headers := None; body := Plain JUndefined; rawBody := false;
       timeoutMs := None |}.

(** The [for] loop of [getModelDetails] over the candidates that are
    left, with [lastErr]; beside the outcome, the paths requested. *)
Fixpoint tryCandidates (candidates : list jsstring) (lastErr : option Thrown)
  : Http.Outcome * list jsstring :=
  match candidates with
  | [] =>
      let msg := match lastErr with Some e => messageText e | None => [] end in
      (Http.Threw
         (Err (newError
                 (JString
                    (if nonEmpty msg then msg
                     else lit "Model details endpoint not available on backend. Add an endpoint like GET /models/details/{model_id}.")))),
       [])
  | path :: rest =>
      match tryGetTrainResponse path with
      | Http.Returned v => (Http.Returned v, [path])
      | Http.Threw e =>
          let (o, requested) := tryCandidates rest (Some e) in
          (o, path :: requested)
      end
  end.

Definition candidatesFor (id : jsstring) : list jsstring :=
  [lit "/models/details/" ++ id; lit "/models/" ++ id; lit "/models/metadata/" ++ id].

(** [getModelDetails]: the outcome, and the paths it has requested. *)
Definition getModelDetails (modelId : jsstring) : Http.Outcome * list jsstring :=
  match encodeURIComponent modelId with
  | None => (Http.Threw uriError, [])
  | Some id => tryCandidates (candidatesFor id) None
  end.

End Calls.

End Calls.

(** ** [services/api.ts]: what a stream call hands to the platform

    The request that a stream call passes to [fetch], and the calls it
    makes on the reader of the response body. *)

Module Streams.
Import JS Json Fetch Api.

(** An abort signal: the controller it belongs to. *)
Definition AbortSignal : Type := nat.

(** The second argument of [fetch]; a property that the object does not
    have is [None]. *)
Record RequestInit := {
  method : Client.HttpMethod;
  headers : Client.Headers;
  body : jsstring;
  signal : option AbortSignal
}.

(** The methods of the reader of a body stream. *)
Inductive ReaderCall :=
| Read
| Cancel
| ReleaseLock.

Section Streams.

Variable JSON_stringify : JSValue -> jsstring.

(** [env.API_BASE_URL] *)
Variable base : jsstring.

(** The arguments of the [fetch] of a stream call. *)
Definition streamRequest (path : jsstring) (payload : JSValue)
  : jsstring * RequestInit :=
  (Env.apiUrl base path,
   {| method := Client.POST;
      headers := [(lit "Content-Type", lit "application/json");
                  (lit "Accept", lit "text/event-stream")];
      body := JSON_stringify payload;
      signal := None |}).

Definition trainRequest : JSValue -> jsstring * RequestInit :=
  streamRequest (lit "/models/train/stream").

Definition predictRequest : JSValue -> jsstring * RequestInit :=
  streamRequest (lit "/models/predict/stream").

Variable JSON_parse : jsstring -> option JSValue.
Variable L : Labels.
Variable onProgress : option (list ProgressCall -> ProgressCall -> option Thrown).

(** The calls that [pump] makes on the reader, over the reads the body
    stream delivers: [reader.read()] when it starts, and again when the
    [then] callback runs to its end and calls [pump()]. *)
Fixpoint readerCalls (reads : list ReadResult) (s : Session) : list ReaderCall :=
  Read ::
  match reads with
  | Chunk value :: rest =>
      match onChunk JSON_parse L onProgress value s with
      | Normal s' => readerCalls rest s'
      | Return _ => []
      | Throw _ _ => []
      end
  | Done :: _ => []
  | ReadError _ :: _ => []
  | [] => []
  end.

End Streams.

End Streams.

(** ** The platform: aborting a fetch

    The Fetch standard gives one way to abort a fetch from outside: the
    signal in its init.  When the controller of that signal aborts, the
    body stream of the response is errored, and the pending read and
    every later one are rejected with an [AbortError].  A fetch whose
    init has no signal is aborted by no controller. *)

Module Abort.
Import JS Fetch Streams.

(** What happens around a fetch whose response has arrived: a read of
    the body settles, or a controller aborts. *)
Inductive Event :=
| Arrives (r : ReadResult)
| Aborts (controller : AbortSignal).

Definition abortError : Thrown :=
  Foreign true (lit "AbortError") (lit "The operation was aborted.").

(** The fetch is made with the signal of the controller. *)
Definition listens (init : RequestInit) (controller : AbortSignal) : bool :=
  match signal init with
  | Some sg => Nat.eqb sg controller
  | None => false
  end.

(** The reads that the body stream of the fetch delivers.  The abort
    that the fetch listens to ends the list with the rejected read: a
    stream reader makes no read after a rejected one. *)
Fixpoint bodyReads (init : RequestInit) (timeline : list Event) : list ReadResult :=
  match timeline with
  | [] => []
  | Arrives r :: timeline' => r :: bodyReads init timeline'
  | Aborts controller :: timeline' =>
      if listens init controller then [ReadError abortError]
      else bodyReads init timeline'
  end.

End Abort.


(** * The vocabulary of the properties

    Definitions that the statements and the proofs use and the program
    does not have: observations on sessions, the predicates of the
    invariants, and the specification's side of the comparisons. *)

Module Vocabulary.
Import JS Json Text Fetch Api.

(** ** Positions and completions *)

(** The position of the first occurrence, as a natural number. *)
Fixpoint find (s needle : jsstring) : option nat :=
  if startsWith s needle then Some O
  else match s with
       | [] => None
       | _ :: s' => option_map S (find s' needle)
       end.

(** The session a completion leaves. *)
Definition stateOf (c : Completion) : Session :=
  match c with Normal s | Return s | Throw _ s => s end.

(** A completion with [f] applied to the session it leaves. *)
Definition mapCompletion (f : Session -> Session) (c : Completion) : Completion :=
  match c with
  | Normal s => Normal (f s)
  | Return s => Return (f s)
  | Throw e s => Throw e (f s)
  end.

(** [buffer += t] *)
Definition appendBuffer (t : jsstring) (s : Session) : Session :=
  setBuffer (buffer s ++ t) s.

(** ** Observations on a session *)

(** What a session has done to the outside, and whether it has settled:
    everything but the buffer and the decoder. *)
Definition observe (s : Session)
  : bool * list Settlement * list ProgressCall * list Frame :=
  (settled s, promise s, progress s, frames s).

(** The session after a turn of the loop that only parsed the frame
    [f] between the start of the buffer and the delimiter at [idx]. *)
Definition skipFrame (idx : Z) (f : Frame) (s : Session) : Session :=
  recordFrame f (setBuffer (slice (buffer s) (idx + 2) None) s).

(** A completion of the loop: [Normal] leaves the flag as it was,
    [Return] leaves it set. *)
Definition flagAfter (before : bool) (c : Completion) : Prop :=
  match c with
  | Normal s => settled s = before
  | Return s => settled s = true
  | Throw _ _ => True
  end.

(** [resolve] or [reject] has been called. *)
Definition isSettled (p : list Settlement) : bool :=
  match p with [] => false | _ :: _ => true end.

(** While it reads, a session is unsettled and its promise untouched. *)
Definition unsettled (s : Session) : Prop :=
  settled s = false /\ promise s = [].

(** At any time [resolve] and [reject] have been called at most once
    between them, and the flag says whether they have. *)
Definition settledOnce (s : Session) : Prop :=
  (List.length (promise s) <= 1)%nat /\ settled s = isSettled (promise s).

(** ** The loop and its frames *)

Section Stream.

Variable JSON_parse : jsstring -> option JSValue.
Variable L : Labels.
Variable onProgress : option (list ProgressCall -> ProgressCall -> option Thrown).

Local Abbreviation loop := (loop JSON_parse L onProgress).

(** The loop as [onChunk] starts it. *)
Definition drain (s : Session) : Completion := loop (List.length (buffer s)) s.

(** What the loop does when [t] is appended to the buffer it left. *)
Definition thenAppend (t : jsstring) (c : Completion) : Completion :=
  match c with
  | Normal s => drain (appendBuffer t s)
  | Return s => Return (appendBuffer t s)
  | Throw e s => Throw e (appendBuffer t s)
  end.

(** The payload [dataStr ? JSON.parse(dataStr) : null], when the parse
    does not throw. *)
Definition payload (dataStr : jsstring) : option JSValue :=
  if nonEmpty dataStr then JSON_parse dataStr else Some JNull.

(** [Handled s event dataStr c]: from session [s], the frame with kind
    [event] and data text [dataStr] is handled with completion [c]. *)
Inductive Handled (s : Session) (event dataStr : jsstring) : Completion -> Prop :=
| HMalformed :
    nonEmpty dataStr = true -> JSON_parse dataStr = None ->
    Handled s event dataStr (Throw (SyntaxError dataStr) s)
| HProgress data callback :
    payload dataStr = Some data -> event = lit "progress" ->
    truthy data = true -> typeofNumber (getProp data (lit "pct")) = true ->
    onProgress = Some callback ->
    callback (progress s) (getProp data (lit "pct"), getProp data (lit "message")) = None ->
    Handled s event dataStr
      (Normal (recordProgress (getProp data (lit "pct"), getProp data (lit "message")) s))
| HProgressThrew data callback e :
    payload dataStr = Some data -> event = lit "progress" ->
    truthy data = true -> typeofNumber (getProp data (lit "pct")) = true ->
    onProgress = Some callback ->
    callback (progress s) (getProp data (lit "pct"), getProp data (lit "message")) = Some e ->
    Handled s event dataStr
      (Throw e (recordProgress (getProp data (lit "pct"), getProp data (lit "message")) s))
| HProgressUnheard data :
    payload dataStr = Some data -> event = lit "progress" ->
    truthy data = true -> typeofNumber (getProp data (lit "pct")) = true ->
    onProgress = None ->
    Handled s event dataStr (Normal s)
| HComplete data :
    payload dataStr = Some data -> event = lit "complete" ->
    truthy data = true ->
    Handled s event dataStr (Return (safeResolve data s))
| HError data :
    payload dataStr = Some data -> event = lit "error" ->
    truthy data = true ->
    Handled s event dataStr
      (Return (safeReject
                 (Err (newError (orElse (getProp data (lit "message"))
                                        (JString (failed L))))) s))
| HIgnored data :
    payload dataStr = Some data ->
    (eqs event (lit "progress") && truthy data
       && typeofNumber (getProp data (lit "pct"))) = false ->
    (eqs event (lit "complete") && truthy data) = false ->
    (eqs event (lit "error") && truthy data) = false ->
    Handled s event dataStr (Normal s).

(** A resolved promise carries the payload of a [complete] frame that
    the session has parsed. *)
Definition authorized (s : Session) : Prop :=
  forall data,
    hd_error (promise s) = Some (Resolved data) ->
    exists dataStr,
      In (lit "complete", dataStr) (frames s)
      /\ nonEmpty dataStr = true
      /\ JSON_parse dataStr = Some data
      /\ truthy data = true.

(** The data text of the frame is non-empty and [JSON.parse] throws on it. *)
Definition malformed (f : Frame) : Prop :=
  nonEmpty (snd f) = true /\ JSON_parse (snd f) = None.

(** The data text of the frame is empty or [JSON.parse] accepts it. *)
Definition wellFormed (f : Frame) : Prop :=
  exists data, payload (snd f) = Some data.

(** While it reads, a session has parsed well-formed frames only. *)
Definition reading (s : Session) : Prop :=
  unsettled s /\ Forall wellFormed (frames s).

(** A run leaves well-formed frames only, or a malformed frame as the
    last one and the session rejected with its syntax error. *)
Definition stoppedAtMalformed (s : Session) : Prop :=
  Forall wellFormed (frames s)
  \/ exists pre f,
       frames s = pre ++ [f] /\ Forall wellFormed pre /\ malformed f
       /\ settled s = true /\ promise s = [Rejected (SyntaxError (snd f))].

End Stream.

(** ** Terminal signals *)

(** The four terminal signals of a session: a [complete] frame and an
    [error] frame (with their truthy payloads), an exception (a rejected
    read, or one thrown while a chunk is handled), and the end of the
    stream. *)
Inductive TerminalSignal :=
| CompleteFrame (data : JSValue)
| ErrorFrame (data : JSValue)
| Exception (e : Thrown)
| EndOfStream.

(** The call of [resolve] or [reject] that the signal asks for. *)
Definition settlementOf (L : Labels) (g : TerminalSignal) : Settlement :=
  match g with
  | CompleteFrame data => Resolved data
  | ErrorFrame data =>
      Rejected (Err (newError (orElse (getProp data (lit "message"))
                                      (JString (failed L)))))
  | Exception e => Rejected e
  | EndOfStream => Rejected (Err (newError (JString (ended L))))
  end.

(** What the code does on a terminal signal. *)
Definition signal (L : Labels) (g : TerminalSignal) (s : Session) : Session :=
  match settlementOf L g with
  | Resolved data => safeResolve data s
  | Rejected e => safeReject e s
  end.

(** ** Data lines *)

Definition isDataLine (line : jsstring) : bool := startsWith line (lit "data:").

(** What a [data:] line contributes: what follows the prefix, trimmed. *)
Definition contribution (line : jsstring) : jsstring := trim (slice line 5 None).

(** ** Error messages *)

(** The status-keyed fallback table, as the specification words it:
    404, 408, 413, 422, any status from 500 up, and a generic message
    for everything else. *)
Definition fallbackTable (status : Z) : jsstring :=
  if status =? 404 then lit "Not found."
  else if status =? 408 then lit "Request timed out. Please try again."
  else if status =? 413 then lit "File is too large. Please upload a smaller file."
  else if status =? 422 then lit "Invalid input. Please check the form and try again."
  else if 500 <=? status then lit "Server error. Please try again later."
  else lit "Something went wrong. Please try again.".

(** The [message] field of a payload that has the structured error
    shape: an object whose [message], [code] and [trace_id] are strings. *)
Definition structuredMessage (payload : JSValue) : option jsstring :=
  match payload with
  | JObject _ =>
      match getProp payload (lit "message"), getProp payload (lit "code"),
            getProp payload (lit "trace_id") with
      | JString m, JString _, JString _ => Some m
      | _, _, _ => None
      end
  | _ => None
  end.

(** The message of a thrown error that was built from a string. *)
Definition messageOf (e : Thrown) : option jsstring :=
  match e with
  | Err h => match messageArg h with JString m => Some m | _ => None end
  | _ => None
  end.

(** What a request threw, if it did. *)
Definition thrownBy (o : Http.Outcome) : option Thrown :=
  match o with Http.Threw e => Some e | Http.Returned _ => None end.

(** What a promise was rejected with, if it was. *)
Definition rejection (o : option Settlement) : option Thrown :=
  match o with Some (Rejected e) => Some e | _ => None end.

(** ** Cancellation

    A stream call takes the request payload and the progress callback
    and returns a promise: it hands out nothing to cancel it with.
    What is left to a caller is what the platform offers, aborting a
    controller. *)

(** A response to the fetch made with [init] that is [ok], with the
    body that the timeline makes of it. *)
Definition answered (init : Streams.RequestInit) (timeline : list Abort.Event)
  : Response :=
  {| ok := true; resStatus := 200; contentType := Some (lit "text/event-stream");
     text := inr []; body := Some (Abort.bodyReads init timeline) |}.

(** The same request made with the signal of a controller. *)
Definition withSignal (controller : Streams.AbortSignal) (init : Streams.RequestInit)
  : Streams.RequestInit :=
  {| Streams.method := Streams.method init;
     Streams.headers := Streams.headers init;
     Streams.body := Streams.body init;
     Streams.signal := Some controller |}.

(** A serialiser for the sample payload, the empty object. *)
Definition sampleStringify (payload : JSValue) : jsstring := lit "{}".

(** ** Sample streams *)

(** A [progress] frame with a numeric [pct]. *)
Definition progressChunk : list byte := bytes "event: progress|data: {'pct':10}||".

(** A [complete] frame with a result. *)
Definition completeChunk : list byte :=
  bytes "event: complete|data: {'model_id':'m1'}||".

(** A session in the middle of its loop, with two frames in its buffer:
    a [progress] frame whose [pct] is a string, and a [complete] frame. *)
Definition midLoop : Session :=
  setBuffer (tv "event: progress|data: {'pct':'ten'}||event: complete|data: {'model_id':'m1'}||")
            initial.

(** The same with a [complete] frame that has no data first. *)
Definition midLoopEmptyComplete : Session :=
  setBuffer (tv "event: complete||event: progress|data: {'pct':10}||") initial.

(** ** More on frames and calls *)

Section Frames.

Variable JSON_parse : jsstring -> option JSValue.
Variable L : Labels.

(** The calls of the progress callback that a frame asks for: one for a
    [progress] frame whose payload has a numeric [pct], none otherwise. *)
Definition progressCallOf (f : Frame) : list ProgressCall :=
  match payload JSON_parse (snd f) with
  | Some data =>
      if eqs (fst f) (lit "progress") && truthy data
         && typeofNumber (getProp data (lit "pct"))
      then [(getProp data (lit "pct"), getProp data (lit "message"))]
      else []
  | None => []
  end.

(** A [complete] or [error] frame with a truthy payload. *)
Definition terminal (f : Frame) : Prop :=
  exists data,
    payload JSON_parse (snd f) = Some data /\ truthy data = true
    /\ (fst f = lit "complete" \/ fst f = lit "error").

(** What a terminal frame settles the promise with. *)
Definition settlementOfFrame (f : Frame) (data : JSValue) : Settlement :=
  if eqs (fst f) (lit "complete") then Resolved data
  else Rejected (Err (newError (orElse (getProp data (lit "message"))
                                       (JString (failed L))))).

(** While it reads, a session has parsed no terminal frame. *)
Definition beforeTerminal (s : Session) : Prop :=
  unsettled s /\ Forall (fun f => ~ terminal f) (frames s).

(** A run has parsed no terminal frame, or one, as its last frame, and
    the promise is settled as that frame says. *)
Definition stoppedAtTerminal (s : Session) : Prop :=
  Forall (fun f => ~ terminal f) (frames s)
  \/ exists pre f data,
       frames s = pre ++ [f] /\ Forall (fun f => ~ terminal f) pre
       /\ payload JSON_parse (snd f) = Some data /\ truthy data = true
       /\ (fst f = lit "complete" \/ fst f = lit "error")
       /\ promise s = [settlementOfFrame f data].

End Frames.

Section Callback.

Variable callback : list ProgressCall -> ProgressCall -> option Thrown.

(** The callback has thrown on none of the calls. *)
Inductive Quiet : list ProgressCall -> Prop :=
| Quiet_nil : Quiet []
| Quiet_snoc calls call :
    Quiet calls -> callback calls call = None -> Quiet (calls ++ [call]).

(** While it reads, the callback has not thrown. *)
Definition beforeThrow (s : Session) : Prop :=
  unsettled s /\ Quiet (progress s).

(** In a run the callback has not thrown, or it has thrown on the last
    call and the promise is rejected with what it threw. *)
Definition stoppedAtThrow (s : Session) : Prop :=
  Quiet (progress s)
  \/ exists calls call e,
       progress s = calls ++ [call] /\ Quiet calls
       /\ callback calls call = Some e
       /\ settled s = true /\ promise s = [Rejected e].

End Callback.

(** The event kind a line sets. *)
Definition eventOf (line : jsstring) : jsstring := trim (slice line 6 None).

Definition isEventLine (line : jsstring) : bool := startsWith line (lit "event:").

(** ** Blocks of text *)

(** The text is a block: followed by the delimiter, it is what the loop
    takes up to the first delimiter. *)
Definition isBlock (block : jsstring) : Prop :=
  indexOf (block ++ [LF; LF]) [LF; LF] = Z.of_nat (List.length block).

(** Blocks on the wire: each followed by the delimiter. *)
Definition framed (blocks : list jsstring) : jsstring :=
  List.concat (map (fun block => block ++ [LF; LF]) blocks).

(** Nothing is left of the block when it is trimmed. *)
Definition isBlank (block : jsstring) : bool := negb (nonEmpty (trim block)).

(** The event kind and the data text that the lines of a block give. *)
Definition frameOf (block : jsstring) : Frame :=
  let (event, dataLines) := parseLines (splitLines (trim block)) in
  (event, join [LF] dataLines).

(** The frames of the blocks that are not blank. *)
Definition framesOf (blocks : list jsstring) : list Frame :=
  map frameOf (filter (fun block => negb (isBlank block)) blocks).

End Vocabulary.

(** * More vocabulary: the request executor and the calls *)

Module MoreVocabulary.
Import JS Json Text Fetch Api Vocabulary.
Import Client Url.

(** ** Errors and URLs *)

(** The error of a timeout. *)
Definition timeoutError : Thrown :=
  Err {| messageArg := JString (lit "Request timed out. Please try again.");
         status := Some 408; code := None; traceId := None;
         details := JUndefined |}.

(** The error for a response that is not [ok] and brings no structured
    error: the message of the fallback table and the status. *)
Definition fallbackError (st : Z) : Thrown :=
  Err {| messageArg := JString (fallbackTable st);
         status := Some st; code := None; traceId := None;
         details := JUndefined |}.

(** The path with its leading slash. *)
Definition rooted (path : jsstring) : jsstring :=
  if startsWith path (lit "/") then path else lit "/" ++ path.

(** The headers that a request has merged: the headers of the options
    over the headers the client was made with. *)
Definition mergedHeaders (defaultHeaders : option Client.Headers)
           (opts : Client.HttpOptions) : Client.Headers :=
  Client.mergeHeaders (Some (Client.orEmpty defaultHeaders)) (Client.headers opts).

(** The request sends its body as JSON text. *)
Definition sendsJson (opts : Client.HttpOptions) : bool :=
  Client.hasBody (Client.body opts) && negb (Client.rawBody opts).

(** ** Query parameters and encoded text *)

(** The parameter has a value that is neither [null] nor [undefined]. *)
Definition present (kv : jsstring * QueryValue) : bool := isPresent (snd kv).

Definition isCons {A} (l : list A) : bool :=
  match l with [] => false | _ :: _ => true end.

(** A string proper: every code unit is one. *)
Definition isString (s : jsstring) : Prop :=
  Forall (fun c => 0 <= c <= 0xFFFF) s.

(** A character that [encodeURIComponent] can write: an unescaped
    character or the percent sign. *)
Definition isUriChar (c : Z) : Prop := Url.isUnescaped c = true \/ c = 37.

(** A character that the form serialiser can write for a name or a
    value: a safe character, the percent sign or the plus sign. *)
Definition isFormChar (c : Z) : Prop := Url.isFormSafe c = true \/ c = 37 \/ c = 43.

(** A code point, or the mark of a surrogate without partner. *)
Definition inRange (cp : option Z) : Prop :=
  match cp with Some c => 0 <= c <= 0x10FFFF | None => True end.

(** A character of a query string: a character of a form-encoded name
    or value, or one of [= & ?]. *)
Definition isQueryChar (c : Z) : Prop :=
  isFormChar c \/ c = 61 \/ c = 38 \/ c = 63.

(** The name and the value of the parameter are strings proper. *)
Definition properParam (kv : jsstring * jsstring) : Prop :=
  isString (fst kv) /\ isString (snd kv).

(** The message of the error that [getModelDetails] throws when the
    last error had the message [msg]. *)
Definition detailsError (msg : jsstring) : Thrown :=
  Err (newError
         (JString
            (if nonEmpty msg then msg
             else lit "Model details endpoint not available on backend. Add an endpoint like GET /models/details/{model_id}."))).

Section Query.

Variable numberToString : number -> jsstring.

(** The body of the loop of [buildQuery]. *)
Definition queryStep (params : list (jsstring * jsstring))
           (kv : jsstring * QueryValue) : list (jsstring * jsstring) :=
  if isPresent (snd kv)
  then paramsSet (usv (fst kv)) (usv (String_ numberToString (snd kv))) params
  else params.

End Query.

Section Requests.

Variable request : Client.HttpOptions -> Http.Outcome.

(** The request for the path threw. *)
Definition threw (path : jsstring) : Prop :=
  exists e, request (Calls.get path) = Http.Threw e.

End Requests.

(** ** Samples *)

(** [isString], to be computed. *)
Definition isStringb (s : jsstring) : bool :=
  forallb (fun c => (0 <=? c) && (c <=? 0xFFFF)) s.

(** The digits of a natural number. *)
Fixpoint showDigits (fuel : nat) (n : Z) (acc : jsstring) : jsstring :=
  match fuel with
  | O => acc
  | S fuel' =>
      if n / 10 =? 0 then (48 + n mod 10) :: acc
      else showDigits fuel' (n / 10) ((48 + n mod 10) :: acc)
  end.

(** [String(n)] for the integers with up to 300 digits, for the samples. *)
Definition showInteger (n : number) : jsstring :=
  match n with
  | Finite m 0 => if m <? 0 then 45 :: showDigits 300 (- m) [] else showDigits 300 m []
  | _ => lit "NaN"
  end.

(** A callback that throws on the second call it receives. *)
Definition throwsOnSecond (calls : list ProgressCall) (call : ProgressCall)
  : option Thrown :=
  match calls with
  | [] => None
  | _ :: _ => Some (Foreign true (lit "Error") (lit "boom"))
  end.

(** A backend that knows the bare model path only. *)
Definition bareModelOnly (opts : Client.HttpOptions) : Http.Outcome :=
  if eqs (Client.path opts) (lit "/models/m%201")
  then Http.Returned (JObject [(lit "model_id", JString (lit "m 1"))])
  else Http.Threw (fallbackError 404).

(** A backend without any of the three paths. *)
Definition noModelPaths (opts : Client.HttpOptions) : Http.Outcome :=
  Http.Threw (fallbackError 404).

(** Three parameters, the last of which is [null]. *)
Definition sampleQuery : list (jsstring * Client.QueryValue) :=
  [(lit "include models", Client.QBoolean true);
   (lit "page", Client.QNumber (Finite 12 0));
   (lit "q", Client.QNull)].

End MoreVocabulary.

(** * Properties *)

Import JS Json Text Fetch Api Vocabulary.

(** ** Strings *)

Section StringFacts.

Lemma find_nil needle :
  find [] needle = if startsWith [] needle then Some O else None.
Proof. reflexivity. Qed.

Lemma find_cons c s needle :
  find (c :: s) needle =
  if startsWith (c :: s) needle then Some O else option_map S (find s needle).
Proof. reflexivity. Qed.

Lemma indexOf_from_nil needle i :
  indexOf_from [] needle i = if startsWith [] needle then i else -1.
Proof. reflexivity. Qed.

Lemma indexOf_from_cons c s needle i :
  indexOf_from (c :: s) needle i =
  if startsWith (c :: s) needle then i else indexOf_from s needle (i + 1).
Proof. reflexivity. Qed.

Lemma indexOf_from_find s needle : forall i,
  indexOf_from s needle i =
  match find s needle with Some k => i + Z.of_nat k | None => -1 end.
Proof.
  induction s as [|c s IH]; intros i.
  - rewrite indexOf_from_nil, find_nil.
    destruct (startsWith [] needle); lia.
  - rewrite indexOf_from_cons, find_cons.
    destruct (startsWith (c :: s) needle); [lia|].
    rewrite IH. destruct (find s needle); cbn [option_map]; lia.
Qed.

Lemma indexOf_find s needle :
  indexOf s needle =
  match find s needle with Some k => Z.of_nat k | None => -1 end.
Proof.
  unfold indexOf. rewrite indexOf_from_find. destruct (find s needle); reflexivity.
Qed.

Lemma startsWith_length s p :
  startsWith s p = true -> (List.length p <= List.length s)%nat.
Proof.
  revert s; induction p as [|c p IH]; intros [|d s]; simpl; intros H;
    try lia; try discriminate.
  apply andb_prop in H as [_ H]. apply IH in H. lia.
Qed.

Lemma startsWith_app s t p :
  (List.length p <= List.length s)%nat ->
  startsWith (s ++ t) p = startsWith s p.
Proof.
  revert s; induction p as [|c p IH]; intros [|d s]; simpl; intros H;
    try reflexivity; try lia.
  rewrite IH by lia. reflexivity.
Qed.

Lemma find_bound s needle k :
  find s needle = Some k -> (k + List.length needle <= List.length s)%nat.
Proof.
  revert k; induction s as [|c s IH]; intros k.
  - rewrite find_nil. destruct (startsWith [] needle) eqn:E; [|discriminate].
    intros [= <-]. apply startsWith_length in E. simpl in *; lia.
  - rewrite find_cons. destruct (startsWith (c :: s) needle) eqn:E.
    + intros [= <-]. apply startsWith_length in E. simpl in *; lia.
    + destruct (find s needle) as [j|]; [|discriminate].
      intros [= <-]. specialize (IH j eq_refl). simpl; lia.
Qed.

(** Text appended after the first occurrence does not move it. *)
Lemma find_app s t needle k :
  find s needle = Some k -> find (s ++ t) needle = Some k.
Proof.
  revert k; induction s as [|c s IH]; intros k H.
  - pose proof (find_bound _ _ _ H) as B. simpl in B.
    destruct needle; [|simpl in B; lia].
    rewrite find_nil in H. simpl in H. injection H as <-.
    destruct t; reflexivity.
  - pose proof (find_bound _ _ _ H) as B.
    rewrite find_cons in H.
    change ((c :: s) ++ t) with (c :: (s ++ t)). rewrite find_cons.
    change (c :: (s ++ t)) with ((c :: s) ++ t).
    rewrite startsWith_app by lia.
    destruct (startsWith (c :: s) needle); [assumption|].
    destruct (find s needle) as [j|]; [|discriminate].
    rewrite (IH j eq_refl). assumption.
Qed.

Lemma slice_prefix s (k : nat) :
  (k <= List.length s)%nat -> slice s 0 (Some (Z.of_nat k)) = firstn k s.
Proof.
  intros H. unfold slice.
  replace (0 <? 0) with false by reflexivity.
  assert ((Z.of_nat k <? 0) = false) as -> by lia.
  rewrite Z.min_l by lia. rewrite Z.min_l by lia.
  rewrite Z.sub_0_r, Nat2Z.id. reflexivity.
Qed.

Lemma slice_suffix s (k : nat) :
  (k <= List.length s)%nat -> slice s (Z.of_nat k) None = skipn k s.
Proof.
  intros H. unfold slice.
  assert ((Z.of_nat k <? 0) = false) as -> by lia.
  rewrite Z.min_l by lia. rewrite Nat2Z.id.
  rewrite firstn_all2; [reflexivity|].
  rewrite length_skipn. lia.
Qed.

End StringFacts.

(** ** The text decoder is indifferent to how its input is cut *)

Section DecoderFacts.

Lemma process_app a : forall st b,
  process st (a ++ b) =
  let (st1, out1) := process st a in
  let (st2, out2) := process st1 b in
  (st2, out1 ++ out2).
Proof.
  induction a as [|x a IH]; intros st b.
  - cbn. destruct (process st b); reflexivity.
  - cbn [app process]. destruct (handler st _) as [st1 o1].
    rewrite IH. destruct (process st1 a) as [st2 o2].
    destruct (process st2 b) as [st3 o3].
    rewrite app_assoc. reflexivity.
Qed.

Lemma serialize_app x : forall bom y,
  serialize bom (x ++ y) =
  let (bom1, out1) := serialize bom x in
  let (bom2, out2) := serialize bom1 y in
  (bom2, out1 ++ out2).
Proof.
  induction x as [|cp x IH]; intros bom y.
  - cbn. destruct (serialize bom y); reflexivity.
  - cbn [app serialize]. rewrite IH.
    destruct (serialize true x) as [b1 o1].
    destruct (serialize b1 y) as [b2 o2].
    destruct (negb bom && (cp =? 65279)); [reflexivity|].
    rewrite app_assoc. reflexivity.
Qed.

Lemma decode_app d a b :
  decode d (a ++ b) =
  let (d1, t1) := decode d a in
  let (d2, t2) := decode d1 b in
  (d2, t1 ++ t2).
Proof.
  unfold decode. rewrite process_app.
  destruct (process (utf8 d) a) as [st1 c1]. cbn [utf8 bomSeen].
  destruct (serialize (bomSeen d) c1) as [b1 o1] eqn:E1. cbn [utf8 bomSeen].
  destruct (process st1 b) as [st2 c2].
  rewrite serialize_app, E1.
  destruct (serialize b1 c2) as [b2 o2]. reflexivity.
Qed.

End DecoderFacts.

(** ** The frame loop *)

Section LoopFacts.

Variable JSON_parse : jsstring -> option JSValue.
Variable L : Labels.
Variable onProgress : option (list ProgressCall -> ProgressCall -> option Thrown).

Local Abbreviation dispatch := (dispatch L onProgress).
Local Abbreviation iteration := (iteration JSON_parse L onProgress).
Local Abbreviation loop := (loop JSON_parse L onProgress).
Local Abbreviation onChunk := (onChunk JSON_parse L onProgress).
Local Abbreviation pump := (pump JSON_parse L onProgress).
Local Abbreviation drain := (drain JSON_parse L onProgress).
Local Abbreviation thenAppend := (thenAppend JSON_parse L onProgress).
Local Abbreviation payload := (payload JSON_parse).
Local Abbreviation Handled := (Handled JSON_parse L onProgress).

Lemma safeResolve_setBuffer data b s :
  safeResolve data (setBuffer b s) = setBuffer b (safeResolve data s).
Proof. unfold safeResolve; cbn [setBuffer settled]. destruct (settled s); reflexivity. Qed.

Lemma safeReject_setBuffer e b s :
  safeReject e (setBuffer b s) = setBuffer b (safeReject e s).
Proof. unfold safeReject; cbn [setBuffer settled]. destruct (settled s); reflexivity. Qed.

Lemma safeResolve_setDecoder data d s :
  safeResolve data (setDecoder d s) = setDecoder d (safeResolve data s).
Proof. unfold safeResolve; cbn [setDecoder settled]. destruct (settled s); reflexivity. Qed.

Lemma safeReject_setDecoder e d s :
  safeReject e (setDecoder d s) = setDecoder d (safeReject e s).
Proof. unfold safeReject; cbn [setDecoder settled]. destruct (settled s); reflexivity. Qed.

Lemma dispatch_setBuffer event data b s :
  dispatch event data (setBuffer b s) =
  mapCompletion (setBuffer b) (dispatch event data s).
Proof.
  unfold Api.dispatch. cbn [setBuffer progress].
  rewrite safeResolve_setBuffer, safeReject_setBuffer.
  repeat match goal with
         | |- context [if ?c then _ else _] => destruct c
         | |- context [match ?c with Some _ => _ | None => _ end] => destruct c
         end; reflexivity.
Qed.

Lemma dispatch_setDecoder event data d s :
  dispatch event data (setDecoder d s) =
  mapCompletion (setDecoder d) (dispatch event data s).
Proof.
  unfold Api.dispatch. cbn [setDecoder progress].
  rewrite safeResolve_setDecoder, safeReject_setDecoder.
  repeat match goal with
         | |- context [if ?c then _ else _] => destruct c
         | |- context [match ?c with Some _ => _ | None => _ end] => destruct c
         end; reflexivity.
Qed.

Lemma dispatch_buffer event data s :
  buffer (stateOf (dispatch event data s)) = buffer s.
Proof.
  unfold Api.dispatch, safeResolve, safeReject.
  repeat match goal with
         | |- context [if ?c then _ else _] => destruct c
         | |- context [match ?c with Some _ => _ | None => _ end] => destruct c
         end; reflexivity.
Qed.

Lemma iteration_buffer idx s :
  buffer (stateOf (iteration idx s)) = slice (buffer s) (idx + 2) None.
Proof.
  unfold Api.iteration.
  destruct (nonEmpty (trim _)); [|reflexivity].
  destruct (parseLines _) as [event dataLines].
  destruct (nonEmpty (join _ _)).
  - destruct (JSON_parse _); [|reflexivity].
    rewrite dispatch_buffer. reflexivity.
  - rewrite dispatch_buffer. reflexivity.
Qed.

Lemma iteration_setDecoder idx d s :
  iteration idx (setDecoder d s) = mapCompletion (setDecoder d) (iteration idx s).
Proof.
  unfold Api.iteration. cbn [setDecoder buffer].
  destruct (nonEmpty (trim _)); [|reflexivity].
  destruct (parseLines _) as [event dataLines].
  destruct (nonEmpty (join _ _)); [destruct (JSON_parse _); [|reflexivity]|];
    match goal with
    | |- _ = mapCompletion _ (dispatch ?e ?v ?y) =>
        exact (dispatch_setDecoder e v d y)
    end.
Qed.

Lemma mapCompletion_appendBuffer t b c :
  buffer (stateOf c) = b ->
  mapCompletion (appendBuffer t) c = mapCompletion (setBuffer (b ++ t)) c.
Proof. intros <-. destruct c; reflexivity. Qed.

(** The turn of the loop on the first delimiter does not see the text
    appended behind it. *)
Lemma iteration_append k t s :
  find (buffer s) [LF; LF] = Some k ->
  iteration (Z.of_nat k) (appendBuffer t s) =
  mapCompletion (appendBuffer t) (iteration (Z.of_nat k) s).
Proof.
  intros F. apply find_bound in F. cbn [List.length] in F.
  unfold Api.iteration.
  change (buffer (appendBuffer t s)) with (buffer s ++ t).
  replace (Z.of_nat k + 2) with (Z.of_nat (k + 2)) by lia.
  rewrite !slice_prefix, !slice_suffix by (rewrite ?length_app; lia).
  rewrite firstn_app, skipn_app.
  replace (k - List.length (buffer s))%nat with O by lia.
  replace (k + 2 - List.length (buffer s))%nat with O by lia.
  cbn [firstn skipn]. rewrite app_nil_r.
  destruct (nonEmpty (trim _)); [|reflexivity].
  destruct (parseLines _) as [event dataLines].
  destruct (nonEmpty (join _ _)); [destruct (JSON_parse _); [|reflexivity]|];
    match goal with
    | |- _ = mapCompletion _ (dispatch ?e ?v ?y) =>
        rewrite (mapCompletion_appendBuffer t (buffer y) _ (dispatch_buffer e v y));
        exact (dispatch_setBuffer e v (buffer y ++ t) y)
    end.
Qed.

Lemma loop_unfold fuel s :
  loop fuel s =
  match find (buffer s) [LF; LF] with
  | None => Normal s
  | Some k =>
      match fuel with
      | O => Normal s
      | S fuel' =>
          match iteration (Z.of_nat k) s with
          | Normal s' => loop fuel' s'
          | stop => stop
          end
      end
  end.
Proof.
  destruct fuel; cbn [Api.loop]; rewrite indexOf_find;
    destruct (find (buffer s) [LF; LF]) as [k|]; try reflexivity;
    assert ((0 <=? Z.of_nat k) = true) as -> by (apply Z.leb_le; lia);
    reflexivity.
Qed.

(** Every turn of the loop shortens the buffer. *)
Lemma iteration_shortens k s :
  find (buffer s) [LF; LF] = Some k ->
  (List.length (buffer (stateOf (iteration (Z.of_nat k) s)))
   < List.length (buffer s))%nat.
Proof.
  intros F. apply find_bound in F. cbn [List.length] in F.
  rewrite iteration_buffer.
  replace (Z.of_nat k + 2) with (Z.of_nat (k + 2)) by lia.
  rewrite slice_suffix, length_skipn by lia. lia.
Qed.

(** The loop ends, and with fuel to spare the fuel does not matter. *)
Lemma loop_fuel f1 : forall f2 s,
  (List.length (buffer s) <= f1)%nat ->
  (List.length (buffer s) <= f2)%nat ->
  loop f1 s = loop f2 s.
Proof.
  induction f1 as [|f1 IH]; intros f2 s H1 H2; rewrite !loop_unfold;
    destruct (find (buffer s) [LF; LF]) as [k|] eqn:F; try reflexivity;
    pose proof (find_bound _ _ _ F) as B; cbn [List.length] in B;
    [lia|].
  destruct f2 as [|f2]; [lia|].
  pose proof (iteration_shortens _ _ F) as Sh.
  destruct (iteration (Z.of_nat k) s) as [s'|s'|e s']; try reflexivity.
  cbn [stateOf] in Sh. apply IH; lia.
Qed.

Lemma drain_step s :
  drain s =
  match find (buffer s) [LF; LF] with
  | None => Normal s
  | Some k =>
      match iteration (Z.of_nat k) s with
      | Normal s' => drain s'
      | stop => stop
      end
  end.
Proof.
  unfold drain. rewrite loop_unfold.
  destruct (find (buffer s) [LF; LF]) as [k|] eqn:F; [|reflexivity].
  pose proof (find_bound _ _ _ F) as B; cbn [List.length] in B.
  destruct (List.length (buffer s)) as [|n] eqn:Len; [lia|].
  pose proof (iteration_shortens _ _ F) as Sh.
  destruct (iteration (Z.of_nat k) s) as [s'|s'|e s']; try reflexivity.
  cbn [stateOf] in Sh. apply loop_fuel; lia.
Qed.

Lemma drain_append_bounded n : forall s t,
  (List.length (buffer s) <= n)%nat ->
  drain (appendBuffer t s) = thenAppend t (drain s).
Proof.
  induction n as [|n IH]; intros s t Len;
    rewrite (drain_step s);
    destruct (find (buffer s) [LF; LF]) as [k|] eqn:F; try reflexivity;
    pose proof (find_bound _ _ _ F) as B; cbn [List.length] in B;
    [lia|].
  rewrite (drain_step (appendBuffer t s)).
  change (buffer (appendBuffer t s)) with (buffer s ++ t).
  rewrite (find_app _ t _ _ F), (iteration_append _ t _ F).
  pose proof (iteration_shortens _ _ F) as Sh.
  destruct (iteration (Z.of_nat k) s) as [s'|s'|e s']; try reflexivity.
  cbn [stateOf mapCompletion] in *. apply IH. lia.
Qed.

(** Appending text to the buffer and running the loop is running the
    loop, appending the text to what it left, and running it again. *)
Lemma drain_append s t :
  drain (appendBuffer t s) = thenAppend t (drain s).
Proof. apply (drain_append_bounded (List.length (buffer s))). lia. Qed.

Lemma loop_setDecoder d fuel : forall s,
  loop fuel (setDecoder d s) = mapCompletion (setDecoder d) (loop fuel s).
Proof.
  induction fuel as [|fuel IH]; intros s; rewrite !loop_unfold;
    cbn [setDecoder buffer];
    destruct (find (buffer s) [LF; LF]) as [k|]; try reflexivity.
  rewrite iteration_setDecoder.
  destruct (iteration (Z.of_nat k) s) as [s'|s'|e s']; try reflexivity.
  cbn [mapCompletion]. apply IH.
Qed.

Lemma drain_setDecoder d s :
  drain (setDecoder d s) = mapCompletion (setDecoder d) (drain s).
Proof. apply loop_setDecoder. Qed.

Lemma drain_decoder s : decoder (stateOf (drain s)) = decoder s.
Proof.
  assert (drain s = mapCompletion (setDecoder (decoder s)) (drain s)) as E.
  { rewrite <- drain_setDecoder. destruct s; reflexivity. }
  rewrite E. destruct (drain s); reflexivity.
Qed.

Lemma onChunk_drain value s :
  onChunk value s =
  drain (appendBuffer (snd (decode (decoder s) value))
           (setDecoder (fst (decode (decoder s) value)) s)).
Proof.
  unfold Api.onChunk, drain. destruct (decode (decoder s) value); reflexivity.
Qed.

(** *** One frame, case by case *)

Lemma eqs_eq a : forall b, eqs a b = true -> a = b.
Proof.
  induction a as [|x a IH]; intros [|y b] H; try discriminate; [reflexivity|].
  cbn in H. apply andb_prop in H as [H1 H2].
  apply Z.eqb_eq in H1. apply IH in H2. congruence.
Qed.

Lemma dispatch_handled s event dataStr data :
  payload dataStr = Some data ->
  Handled s event dataStr (dispatch event data s).
Proof.
  intros P. unfold Api.dispatch.
  destruct (eqs event (lit "progress") && truthy data
            && typeofNumber (getProp data (lit "pct"))) eqn:E1.
  - apply andb_prop in E1 as [E1 T]. apply andb_prop in E1 as [E1 Tr].
    apply eqs_eq in E1.
    destruct onProgress as [callback|] eqn:C.
    + destruct (callback _ _) eqn:R.
      * eapply HProgressThrew; eauto.
      * eapply HProgress; eauto.
    + eapply HProgressUnheard; eauto.
  - destruct (eqs event (lit "complete") && truthy data) eqn:E2.
    + apply andb_prop in E2 as [E2 Tr]. apply eqs_eq in E2.
      eapply HComplete; eauto.
    + destruct (eqs event (lit "error") && truthy data) eqn:E3.
      * apply andb_prop in E3 as [E3 Tr]. apply eqs_eq in E3.
        eapply HError; eauto.
      * eapply HIgnored; eauto.
Qed.

(** A turn of the loop either finds only white space before the
    delimiter, or parses a frame, records it and handles it. *)
Lemma iteration_handled idx s :
  let rest := setBuffer (slice (buffer s) (idx + 2) None) s in
  iteration idx s = Normal rest
  \/ exists event dataStr,
       Handled (recordFrame (event, dataStr) rest) event dataStr (iteration idx s).
Proof.
  unfold Api.iteration. cbv zeta.
  destruct (nonEmpty (trim _)); [right|left; reflexivity].
  destruct (parseLines _) as [event dataLines].
  exists event, (join [LF] dataLines).
  destruct (nonEmpty (join [LF] dataLines)) eqn:N.
  - destruct (JSON_parse (join [LF] dataLines)) as [data|] eqn:P.
    + apply dispatch_handled. unfold payload. rewrite N. exact P.
    + apply HMalformed; assumption.
  - apply dispatch_handled. unfold payload. rewrite N. reflexivity.
Qed.

(** *** Invariants of a session *)

Section Invariant.

(** [Streaming] holds while the session reads, [Final] of what a run
    leaves. *)
Variables Streaming Final : Session -> Prop.

Hypothesis Streaming_observed :
  forall s s', observe s = observe s' -> Streaming s -> Streaming s'.

Hypothesis frame_step :
  forall s event dataStr c,
    Streaming s ->
    Handled (recordFrame (event, dataStr) s) event dataStr c ->
    match c with
    | Normal s' => Streaming s'
    | Return s' => Final s'
    | Throw e s' => Final (safeReject e s')
    end.

Hypothesis pending : forall s, Streaming s -> Final s.

Hypothesis rejected : forall s e, Streaming s -> Final (safeReject e s).

Lemma loop_invariant fuel : forall s,
  Streaming s ->
  match loop fuel s with
  | Normal s' => Streaming s'
  | Return s' => Final s'
  | Throw e s' => Final (safeReject e s')
  end.
Proof.
  induction fuel as [|fuel IH]; intros s St; rewrite loop_unfold;
    destruct (find (buffer s) [LF; LF]) as [k|]; try assumption.
  pose proof (iteration_handled (Z.of_nat k) s) as H. cbv zeta in H.
  assert (Streaming (setBuffer (slice (buffer s) (Z.of_nat k + 2) None) s)) as St'.
  { revert St. apply Streaming_observed. reflexivity. }
  destruct H as [H|(event & dataStr & H)].
  - rewrite H. apply IH. exact St'.
  - pose proof (frame_step _ _ _ _ St' H) as Fs.
    destruct (iteration (Z.of_nat k) s) as [s'|s'|e s']; try assumption.
    apply IH. exact Fs.
Qed.

Lemma pump_invariant reads : forall s, Streaming s -> Final (pump reads s).
Proof.
  induction reads as [|r reads IH]; intros s St; cbn [Api.pump].
  - apply pending; assumption.
  - destruct r as [value| |e]; try (apply rejected; assumption).
    assert (Streaming (appendBuffer (snd (decode (decoder s) value))
                         (setDecoder (fst (decode (decoder s) value)) s))) as St'.
    { revert St. apply Streaming_observed. reflexivity. }
    rewrite onChunk_drain. unfold drain.
    pose proof (loop_invariant
      (List.length (buffer (appendBuffer (snd (decode (decoder s) value))
                         (setDecoder (fst (decode (decoder s) value)) s)))) _ St') as Lp.
    destruct (loop _ _) as [s'|s'|e s']; auto.
Qed.

End Invariant.

End LoopFacts.

(** ** Chunking *)

Section Chunking.

Variable JSON_parse : jsstring -> option JSValue.
Variable L : Labels.
Variable onProgress : option (list ProgressCall -> ProgressCall -> option Thrown).

Local Abbreviation pump := (pump JSON_parse L onProgress).
Local Abbreviation onChunk := (onChunk JSON_parse L onProgress).
Local Abbreviation drain := (drain JSON_parse L onProgress).

Lemma appendBuffer_app t1 t2 s :
  appendBuffer (t1 ++ t2) s = appendBuffer t2 (appendBuffer t1 s).
Proof. unfold appendBuffer, setBuffer; cbn. rewrite app_assoc. reflexivity. Qed.

Lemma safeReject_observe e s s' :
  observe s = observe s' -> observe (safeReject e s) = observe (safeReject e s').
Proof.
  destruct s, s'. unfold observe, safeReject. cbn.
  intros [= -> -> -> ->]. destruct settled1; reflexivity.
Qed.

(** Two chunks in a row are handled as their concatenation is. *)
Lemma onChunk_app a b s :
  onChunk (a ++ b) s =
  match onChunk a s with
  | Normal s1 => onChunk b s1
  | Return s1 =>
      Return (appendBuffer (snd (decode (decoder s1) b))
                (setDecoder (fst (decode (decoder s1) b)) s1))
  | Throw e s1 =>
      Throw e (appendBuffer (snd (decode (decoder s1) b))
                 (setDecoder (fst (decode (decoder s1) b)) s1))
  end.
Proof.
  rewrite !onChunk_drain, decode_app.
  destruct (decode (decoder s) a) as [d1 t1] eqn:Da. cbn [fst snd].
  pose proof (drain_decoder JSON_parse L onProgress
                (appendBuffer t1 (setDecoder d1 s))) as Dec.
  cbn [appendBuffer setBuffer setDecoder decoder] in Dec.
  destruct (decode d1 b) as [d2 t2] eqn:Db. cbn [fst snd].
  rewrite appendBuffer_app, drain_append.
  change (appendBuffer t1 (setDecoder d2 s))
    with (setDecoder d2 (appendBuffer t1 (setDecoder d1 s))).
  rewrite drain_setDecoder.
  fold (appendBuffer t1 (setDecoder d1 s)) in Dec.
  destruct (drain (appendBuffer t1 (setDecoder d1 s))) as [s1|s1|e s1];
    cbn [stateOf mapCompletion thenAppend] in *.
  - rewrite onChunk_drain, Dec, Db. reflexivity.
  - rewrite Dec, Db. reflexivity.
  - rewrite Dec, Db. reflexivity.
Qed.

Lemma pump_two_chunks a b rest s :
  observe (pump (Chunk a :: Chunk b :: rest) s) =
  observe (pump (Chunk (a ++ b) :: rest) s).
Proof.
  cbn [Api.pump]. rewrite onChunk_app.
  destruct (onChunk a s) as [s1|s1|e s1]; try reflexivity.
  apply safeReject_observe. reflexivity.
Qed.

Lemma pump_after_chunk c xs ys s :
  (forall s', observe (pump xs s') = observe (pump ys s')) ->
  observe (pump (Chunk c :: xs) s) = observe (pump (Chunk c :: ys) s).
Proof.
  intros H. cbn [Api.pump]. destruct (onChunk c s); auto.
Qed.

Lemma pump_chunks cs : forall c rest s,
  observe (pump (map Chunk (c :: cs) ++ rest) s) =
  observe (pump (Chunk (List.concat (c :: cs)) :: rest) s).
Proof.
  induction cs as [|c' cs IH]; intros c rest s.
  - cbn [map List.concat app]. rewrite app_nil_r. reflexivity.
  - change (map Chunk (c :: c' :: cs) ++ rest)
      with (Chunk c :: (map Chunk (c' :: cs) ++ rest)).
    rewrite (pump_after_chunk c _ (Chunk (List.concat (c' :: cs)) :: rest))
      by (intros s'; apply IH).
    apply pump_two_chunks.
Qed.

End Chunking.

(** C2. Chunking-invariance: however the bytes of a stream are cut into
    chunks (at any byte offsets, also inside a UTF-8 sequence or inside
    the blank-line delimiter, also into empty chunks), a session that
    reads the chunks one by one parses the same frames in the same order,
    makes the same calls of the progress callback and settles in the same
    way as a session that reads all the bytes as one chunk; in
    particular so for the two chunks that a cut at byte offset [n]
    makes.  The reads that follow the chunks ([rest]: more chunks, the
    end of the stream, a read error, or nothing yet) are arbitrary. *)
Theorem chunking_invariance :
  forall JSON_parse L onProgress,
    (forall (chunks : list (list byte)) (rest : list ReadResult),
        observe (pump JSON_parse L onProgress (map Chunk chunks ++ rest) initial) =
        observe (pump JSON_parse L onProgress (Chunk (List.concat chunks) :: rest) initial))
    /\ (forall (stream : list byte) (n : nat) (rest : list ReadResult),
          observe (pump JSON_parse L onProgress
                     (Chunk (firstn n stream) :: Chunk (skipn n stream) :: rest) initial) =
          observe (pump JSON_parse L onProgress (Chunk stream :: rest) initial)).
Proof.
  intros JSON_parse L onProgress. split.
  - intros [|c cs] rest.
    + reflexivity.
    + apply pump_chunks.
  - intros stream n rest. rewrite pump_two_chunks, firstn_skipn. reflexivity.
Qed.

(** ** Settlement *)

Section Settlement.

Variable JSON_parse : jsstring -> option JSValue.
Variable L : Labels.
Variable onProgress : option (list ProgressCall -> ProgressCall -> option Thrown).

Local Abbreviation pump := (pump JSON_parse L onProgress).
Local Abbreviation dispatch := (dispatch L onProgress).

(** The terminal paths of the code are the four signals. *)
Lemma complete_frame_signals data s :
  truthy data = true ->
  dispatch (lit "complete") data s = Return (signal L (CompleteFrame data) s).
Proof. intros T. unfold Api.dispatch. cbn. rewrite T. reflexivity. Qed.

Lemma error_frame_signals data s :
  truthy data = true ->
  dispatch (lit "error") data s = Return (signal L (ErrorFrame data) s).
Proof. intros T. unfold Api.dispatch. cbn. rewrite T. reflexivity. Qed.

Lemma end_of_stream_signals rest s :
  pump (Done :: rest) s = signal L EndOfStream s.
Proof. reflexivity. Qed.

Lemma read_error_signals e rest s :
  pump (ReadError e :: rest) s = signal L (Exception e) s.
Proof. reflexivity. Qed.

Lemma thrown_signals value rest s e s' :
  onChunk JSON_parse L onProgress value s = Throw e s' ->
  pump (Chunk value :: rest) s = signal L (Exception e) s'.
Proof. intros H. cbn [Api.pump]. rewrite H. reflexivity. Qed.

Lemma signal_settles g s : settled (signal L g s) = true.
Proof.
  unfold signal, safeResolve, safeReject.
  destruct (settlementOf L g); destruct (settled s) eqn:E; auto.
Qed.

Lemma signal_settled g s : settled s = true -> signal L g s = s.
Proof.
  intros E. unfold signal, safeResolve, safeReject.
  destruct (settlementOf L g); rewrite E; reflexivity.
Qed.

Lemma signals_settled later : forall s,
  settled s = true -> fold_left (fun st h => signal L h st) later s = s.
Proof.
  induction later as [|h later IH]; intros s E; cbn [fold_left]; [reflexivity|].
  rewrite signal_settled by assumption. apply IH. assumption.
Qed.

Lemma unsettled_same s s' :
  settled s = settled s' -> promise s = promise s' ->
  unsettled s -> unsettled s'.
Proof. unfold unsettled. intros -> ->. auto. Qed.

Lemma unsettled_observed s s' :
  observe s = observe s' -> unsettled s -> unsettled s'.
Proof. unfold observe. intros [= E P _ _]. apply unsettled_same; assumption. Qed.

Lemma safeReject_unsettled e s :
  unsettled s -> settled (safeReject e s) = true /\ promise (safeReject e s) = [Rejected e].
Proof. intros [E P]. unfold safeReject. rewrite E. cbn. rewrite P. auto. Qed.

Lemma safeResolve_unsettled data s :
  unsettled s ->
  settled (safeResolve data s) = true /\ promise (safeResolve data s) = [Resolved data].
Proof. intros [E P]. unfold safeResolve. rewrite E. cbn. rewrite P. auto. Qed.

Lemma pump_settledOnce reads : settledOnce (pump reads initial).
Proof.
  apply (pump_invariant JSON_parse L onProgress unsettled settledOnce).
  - exact unsettled_observed.
  - intros s event dataStr c U H.
    assert (unsettled (recordFrame (event, dataStr) s)) as U'
      by (revert U; apply unsettled_same; reflexivity).
    inversion H; subst; clear H;
      try match goal with
          | |- settledOnce (safeReject ?e ?x) =>
              destruct (safeReject_unsettled e x) as [A B];
              [try assumption|red; rewrite A, B; cbn; auto]
          | |- settledOnce (safeResolve ?d ?x) =>
              destruct (safeResolve_unsettled d x) as [A B];
              [try assumption|red; rewrite A, B; cbn; auto]
          end;
      try assumption;
      try (revert U'; apply unsettled_same; reflexivity).
  - intros s [E P]. red. rewrite E, P. cbn. auto.
  - intros s e U. destruct (safeReject_unsettled e s U) as [A B].
    red. rewrite A, B. cbn. auto.
  - split; reflexivity.
Qed.

End Settlement.

(** C1. A session settles exactly once.  Whatever terminal signal comes
    first ([complete] frame, [error] frame, exception, end of stream)
    leaves the session settled, calls [resolve] or [reject] only if the
    session was not settled before, and after it every further sequence
    of terminal signals leaves the session as it is: the guard is the
    [settled] flag that [safeResolve] and [safeReject] test and set.
    Over a whole run, [resolve] and [reject] together are called at most
    once, and the flag is set exactly when one of them has been called. *)
Theorem settles_exactly_once :
  forall JSON_parse L onProgress,
    (forall (g : TerminalSignal) (later : list TerminalSignal) (s : Session),
        settled (signal L g s) = true
        /\ promise (signal L g s) =
           (if settled s then promise s else promise s ++ [settlementOf L g])
        /\ fold_left (fun st h => signal L h st) later (signal L g s) = signal L g s)
    /\ (forall reads : list ReadResult,
          (List.length (promise (pump JSON_parse L onProgress reads initial)) <= 1)%nat
          /\ settled (pump JSON_parse L onProgress reads initial) =
             isSettled (promise (pump JSON_parse L onProgress reads initial))).
Proof.
  intros JSON_parse L onProgress. split.
  - intros g later s. split; [apply signal_settles|]. split.
    + unfold signal, safeResolve, safeReject.
      destruct g; cbn [settlementOf]; destruct (settled s); reflexivity.
    + apply signals_settled, signal_settles.
  - intros reads. apply pump_settledOnce.
Qed.

(** ** Reading goes on exactly while the session is unsettled *)

Section Reading.

Variable JSON_parse : jsstring -> option JSValue.
Variable L : Labels.
Variable onProgress : option (list ProgressCall -> ProgressCall -> option Thrown).

Local Abbreviation pump := (pump JSON_parse L onProgress).
Local Abbreviation loop := (loop JSON_parse L onProgress).
Local Abbreviation onChunk := (onChunk JSON_parse L onProgress).
Local Abbreviation authorized := (authorized JSON_parse).

Lemma safeReject_settles e s : settled (safeReject e s) = true.
Proof. unfold safeReject. destruct (settled s) eqn:E; auto. Qed.

Lemma safeResolve_settles data s : settled (safeResolve data s) = true.
Proof. unfold safeResolve. destruct (settled s) eqn:E; auto. Qed.

Lemma handled_flag s event dataStr c :
  Handled JSON_parse L onProgress s event dataStr c -> flagAfter (settled s) c.
Proof.
  intros H. inversion H; subst; cbn [flagAfter];
    auto using safeReject_settles, safeResolve_settles.
Qed.

Lemma loop_flag fuel : forall s, flagAfter (settled s) (loop fuel s).
Proof.
  induction fuel as [|fuel IH]; intros s; rewrite loop_unfold;
    destruct (find (buffer s) [LF; LF]) as [k|]; try reflexivity.
  pose proof (iteration_handled JSON_parse L onProgress (Z.of_nat k) s) as H.
  cbv zeta in H. destruct H as [H|(event & dataStr & H)].
  - rewrite H. apply (IH (setBuffer _ s)).
  - apply handled_flag in H. cbn [recordFrame setBuffer settled] in H.
    destruct (Api.iteration _ _ _ _ s) as [s'|s'|e s']; cbn [flagAfter] in *; auto.
    rewrite <- H. apply IH.
Qed.

Lemma onChunk_flag value s : flagAfter (settled s) (onChunk value s).
Proof. rewrite onChunk_drain. apply (loop_flag _ (appendBuffer _ (setDecoder _ s))). Qed.

(** An unsettled session goes on with the reads that follow. *)
Lemma pump_app_streaming reads more : forall s,
  settled (pump reads s) = false ->
  pump (reads ++ more) s = pump more (pump reads s).
Proof.
  induction reads as [|r reads IH]; intros s E; [reflexivity|].
  cbn [app Api.pump] in *.
  destruct r as [value| |e]; try (rewrite safeReject_settles in E; discriminate).
  pose proof (onChunk_flag value s) as Fl.
  destruct (onChunk value s) as [s'|s'|e s']; cbn [flagAfter] in Fl.
  - apply IH. assumption.
  - congruence.
  - rewrite safeReject_settles in E. discriminate.
Qed.

(** A session that has settled has stopped reading. *)
Lemma pump_app_settled reads more : forall s,
  settled s = false ->
  settled (pump reads s) = true ->
  pump (reads ++ more) s = pump reads s.
Proof.
  induction reads as [|r reads IH]; intros s U E; [cbn in E; congruence|].
  cbn [app Api.pump] in *.
  destruct r as [value| |e]; try reflexivity.
  pose proof (onChunk_flag value s) as Fl.
  destruct (onChunk value s) as [s'|s'|e s']; cbn [flagAfter] in Fl; try reflexivity.
  apply IH; congruence.
Qed.

(** *** Success comes from a [complete] frame only *)

Lemma safeResolve_frames data s : frames (safeResolve data s) = frames s.
Proof. unfold safeResolve. destruct (settled s); reflexivity. Qed.

Lemma rejected_authorized e s : unsettled s -> authorized (safeReject e s).
Proof.
  intros U data. destruct (safeReject_unsettled e s U) as [_ ->]. discriminate.
Qed.

Lemma pump_authorized reads : authorized (pump reads initial).
Proof.
  apply (pump_invariant JSON_parse L onProgress unsettled authorized).
  - exact unsettled_observed.
  - intros s event dataStr c U H.
    assert (unsettled (recordFrame (event, dataStr) s)) as U'
      by (revert U; apply unsettled_same; reflexivity).
    inversion H; subst; clear H;
      try (apply rejected_authorized; try assumption);
      try assumption;
      try (revert U'; apply unsettled_same; reflexivity).
    intros data0. destruct (safeResolve_unsettled data _ U') as [_ ->].
    intros [= <-]. exists dataStr. split.
    + rewrite safeResolve_frames. cbn [recordFrame frames].
      apply in_or_app. right. left. reflexivity.
    + unfold payload in *. destruct (nonEmpty dataStr).
      * auto.
      * injection H0 as <-. discriminate.
  - intros s [_ P] data. rewrite P. discriminate.
  - intros s e. apply rejected_authorized.
  - split; reflexivity.
Qed.

End Reading.

(** C3. The end of the stream while the session is still streaming
    settles it as a failure whose message says that the stream ended
    unexpectedly (for both stream calls), whatever the session has read
    before; and a session resolves successfully only with the payload of
    a [complete] frame that it has parsed, so a stream of [progress]
    frames followed by the end of the stream never resolves. *)
Theorem eof_while_streaming_fails :
  forall JSON_parse L onProgress,
    (forall reads rest,
        settled (pump JSON_parse L onProgress reads initial) = false ->
        pump JSON_parse L onProgress (reads ++ Done :: rest) initial =
        settle (Rejected (Err (newError (JString (ended L)))))
               (pump JSON_parse L onProgress reads initial))
    /\ (forall reads data,
          hd_error (promise (pump JSON_parse L onProgress reads initial))
          = Some (Resolved data) ->
          exists dataStr,
            In (lit "complete", dataStr)
               (frames (pump JSON_parse L onProgress reads initial))
            /\ nonEmpty dataStr = true
            /\ JSON_parse dataStr = Some data
            /\ truthy data = true)
    /\ includes (ended trainLabels) (lit "stream ended unexpectedly") = true
    /\ includes (ended predictLabels) (lit "stream ended unexpectedly") = true.
Proof.
  intros JSON_parse L onProgress. split; [|split; [|split; reflexivity]].
  - intros reads rest E. rewrite pump_app_streaming by assumption.
    cbn [Api.pump]. unfold safeReject. rewrite E. reflexivity.
  - intros reads. apply pump_authorized.
Qed.

(** ** Malformed payloads *)

Section Malformed.

Variable JSON_parse : jsstring -> option JSValue.
Variable L : Labels.
Variable onProgress : option (list ProgressCall -> ProgressCall -> option Thrown).

Local Abbreviation pump := (pump JSON_parse L onProgress).
Local Abbreviation malformed := (malformed JSON_parse).
Local Abbreviation wellFormed := (wellFormed JSON_parse).
Local Abbreviation reading := (reading JSON_parse).
Local Abbreviation stoppedAtMalformed := (stoppedAtMalformed JSON_parse).

Lemma wellFormed_not_malformed f : wellFormed f -> ~ malformed f.
Proof.
  intros [data P] [N M]. unfold payload in P. rewrite N in P. congruence.
Qed.

Lemma reading_same s s' :
  settled s = settled s' -> promise s = promise s' -> frames s = frames s' ->
  reading s -> reading s'.
Proof.
  intros E P F [U W]. split.
  - revert U. apply unsettled_same; assumption.
  - rewrite <- F. assumption.
Qed.

Lemma safeReject_frames e s : frames (safeReject e s) = frames s.
Proof. unfold safeReject. destruct (settled s); reflexivity. Qed.

Lemma pump_stoppedAtMalformed reads : stoppedAtMalformed (pump reads initial).
Proof.
  apply (pump_invariant JSON_parse L onProgress reading stoppedAtMalformed).
  - intros s s'. unfold observe. intros [= E P _ F]. apply reading_same; assumption.
  - intros s event dataStr c [U W] H.
    assert (unsettled (recordFrame (event, dataStr) s)) as U'
      by (revert U; apply unsettled_same; reflexivity).
    inversion H; subst; clear H.
    + right. exists (frames s), (event, dataStr).
      rewrite safeReject_frames.
      destruct (safeReject_unsettled (SyntaxError dataStr) _ U') as [A B].
      repeat split; auto.
    + split; [revert U'; apply unsettled_same; reflexivity|].
      cbn. apply Forall_app. split; [assumption|]. repeat constructor. eexists; eauto.
    + left. rewrite safeReject_frames. cbn.
      apply Forall_app. split; [assumption|]. repeat constructor. eexists; eauto.
    + split; [assumption|].
      cbn. apply Forall_app. split; [assumption|]. repeat constructor. eexists; eauto.
    + left. rewrite safeResolve_frames. cbn.
      apply Forall_app. split; [assumption|]. repeat constructor. eexists; eauto.
    + left. rewrite safeReject_frames. cbn.
      apply Forall_app. split; [assumption|]. repeat constructor. eexists; eauto.
    + split; [assumption|].
      cbn. apply Forall_app. split; [assumption|]. repeat constructor. eexists; eauto.
  - intros s [_ W]. left. assumption.
  - intros s e [_ W]. left. rewrite safeReject_frames. assumption.
  - split; [split; reflexivity|constructor].
Qed.

End Malformed.

(** C4. A frame whose joined data text is non-empty and not valid JSON
    fails the session, whatever its event kind: in every run, such a
    frame is the last frame the session parses (it is not skipped and
    nothing is read past it), the session is settled, and its promise
    is rejected with the syntax error of that data text. *)
Theorem malformed_payload_fails :
  forall JSON_parse L onProgress reads pre event dataStr post,
    frames (pump JSON_parse L onProgress reads initial)
    = pre ++ (event, dataStr) :: post ->
    nonEmpty dataStr = true ->
    JSON_parse dataStr = None ->
    post = []
    /\ settled (pump JSON_parse L onProgress reads initial) = true
    /\ promise (pump JSON_parse L onProgress reads initial)
       = [Rejected (SyntaxError dataStr)].
Proof.
  intros JSON_parse L onProgress reads pre event dataStr post F N M.
  assert (malformed JSON_parse (event, dataStr)) as Bad by (split; assumption).
  destruct (pump_stoppedAtMalformed JSON_parse L onProgress reads)
    as [W|(pre' & f & F' & W & _ & E & P)].
  - rewrite F in W. apply Forall_app in W as [_ W].
    inversion W; subst. exfalso. eapply wellFormed_not_malformed; eauto.
  - rewrite F in F'. destruct (rev post) as [|x tsop] eqn:R.
    + apply (f_equal (@rev _)) in R. rewrite rev_involutive in R. cbn in R. subst post.
      apply app_inj_tail in F' as [_ <-]. auto.
    + apply (f_equal (@rev _)) in R. rewrite rev_involutive in R. cbn in R. subst post.
      change (pre ++ (event, dataStr) :: rev tsop ++ [x])
        with (pre ++ ((event, dataStr) :: rev tsop) ++ [x]) in F'.
      rewrite app_assoc in F'. apply app_inj_tail in F' as [<- _].
      apply Forall_app in W as [_ W]. inversion W; subst.
      exfalso. eapply wellFormed_not_malformed; eauto.
Qed.

(** ** Frames that are ignored *)

Section Ignored.

Variable JSON_parse : jsstring -> option JSValue.
Variable L : Labels.
Variable onProgress : option (list ProgressCall -> ProgressCall -> option Thrown).

Local Abbreviation iteration := (iteration JSON_parse L onProgress).
Local Abbreviation dispatch := (dispatch L onProgress).
Local Abbreviation drain := (drain JSON_parse L onProgress).

Lemma iteration_frame idx s event dataLines :
  nonEmpty (trim (slice (buffer s) 0 (Some idx))) = true ->
  parseLines (splitLines (trim (slice (buffer s) 0 (Some idx)))) = (event, dataLines) ->
  iteration idx s =
  match payload JSON_parse (join [LF] dataLines) with
  | Some data => dispatch event data (skipFrame idx (event, join [LF] dataLines) s)
  | None => Throw (SyntaxError (join [LF] dataLines))
                  (skipFrame idx (event, join [LF] dataLines) s)
  end.
Proof.
  intros N P. unfold Api.iteration, payload. rewrite N, P.
  destruct (nonEmpty (join [LF] dataLines)); reflexivity.
Qed.

Lemma drain_normal s s' :
  0 <= indexOf (buffer s) [LF; LF] ->
  iteration (indexOf (buffer s) [LF; LF]) s = Normal s' ->
  drain s = drain s'.
Proof.
  intros I E. rewrite (drain_step _ _ _ s). rewrite indexOf_find in *.
  destruct (find (buffer s) [LF; LF]) as [k|]; [|lia].
  rewrite E. reflexivity.
Qed.

Lemma dispatch_null event s : dispatch event JNull s = Normal s.
Proof.
  unfold Api.dispatch. cbn [truthy]. rewrite !andb_false_r. reflexivity.
Qed.

Lemma dispatch_progress_without_pct data s :
  typeofNumber (getProp data (lit "pct")) = false ->
  dispatch (lit "progress") data s = Normal s.
Proof.
  intros T. unfold Api.dispatch. rewrite T, andb_false_r. reflexivity.
Qed.

End Ignored.

(** C8. A [progress] frame whose payload has no numeric [pct] (the
    payload is [null], is not an object, has no [pct], or has a [pct]
    that is not a number) is ignored: the turn of the loop that parses
    it completes normally (nothing is thrown, nothing returned), the
    buffer has advanced past the frame and its delimiter, the decoder,
    the [settled] flag, the promise and the calls of the progress
    callback are as before, and the loop goes on with the rest of the
    buffer. *)
Theorem progress_without_pct_ignored :
  forall JSON_parse L onProgress (s : Session) (dataLines : list jsstring)
         (data : JSValue),
    let idx := indexOf (buffer s) [LF; LF] in
    let raw := trim (slice (buffer s) 0 (Some idx)) in
    0 <= idx ->
    nonEmpty raw = true ->
    parseLines (splitLines raw) = (lit "progress", dataLines) ->
    payload JSON_parse (join [LF] dataLines) = Some data ->
    typeofNumber (getProp data (lit "pct")) = false ->
    exists s',
      iteration JSON_parse L onProgress idx s = Normal s'
      /\ buffer s' = slice (buffer s) (idx + 2) None
      /\ decoder s' = decoder s
      /\ settled s' = settled s
      /\ promise s' = promise s
      /\ progress s' = progress s
      /\ frames s' = frames s ++ [(lit "progress", join [LF] dataLines)]
      /\ drain JSON_parse L onProgress s = drain JSON_parse L onProgress s'.
Proof.
  intros JSON_parse L onProgress s dataLines data idx raw I N P D T.
  exists (skipFrame idx (lit "progress", join [LF] dataLines) s).
  assert (iteration JSON_parse L onProgress idx s
          = Normal (skipFrame idx (lit "progress", join [LF] dataLines) s)) as E.
  { rewrite (iteration_frame _ _ _ _ _ _ _ N P), D.
    apply dispatch_progress_without_pct. assumption. }
  repeat split; try reflexivity; [assumption|].
  apply drain_normal; assumption.
Qed.

(** C10. A [complete] or [error] frame whose joined data text is empty
    has the payload [null] and does not settle the session: the turn of
    the loop that parses it completes normally with the [settled] flag,
    the promise and the progress calls as before, and the loop goes on.
    So the streams made of one such frame and the end of the stream are
    rejected with the message that the stream ended unexpectedly. *)
Theorem empty_terminal_frame_ignored :
  forall JSON_parse L onProgress,
    (forall (s : Session) (event : jsstring) (dataLines : list jsstring),
        let idx := indexOf (buffer s) [LF; LF] in
        let raw := trim (slice (buffer s) 0 (Some idx)) in
        0 <= idx ->
        nonEmpty raw = true ->
        parseLines (splitLines raw) = (event, dataLines) ->
        event = lit "complete" \/ event = lit "error" ->
        join [LF] dataLines = [] ->
        exists s',
          iteration JSON_parse L onProgress idx s = Normal s'
          /\ buffer s' = slice (buffer s) (idx + 2) None
          /\ settled s' = settled s
          /\ promise s' = promise s
          /\ progress s' = progress s
          /\ frames s' = frames s ++ [(event, [])]
          /\ drain JSON_parse L onProgress s = drain JSON_parse L onProgress s')
    /\ promise (pump JSON_parse L onProgress
                  [Chunk (bytes "event: complete||"); Done] initial)
       = [Rejected (Err (newError (JString (ended L))))]
    /\ promise (pump JSON_parse L onProgress
                  [Chunk (bytes "event: error|data:||"); Done] initial)
       = [Rejected (Err (newError (JString (ended L))))].
Proof.
  intros JSON_parse L onProgress. split; [|split; reflexivity].
  intros s event dataLines idx raw I N P _ D.
  exists (skipFrame idx (event, []) s).
  assert (iteration JSON_parse L onProgress idx s
          = Normal (skipFrame idx (event, []) s)) as E.
  { rewrite (iteration_frame _ _ _ _ _ _ _ N P), D. cbn [payload nonEmpty].
    apply dispatch_null. }
  repeat split; try reflexivity; [assumption|].
  apply drain_normal; assumption.
Qed.

(** ** The data text of a frame *)

Section DataText.

Lemma data_line_not_event line :
  isDataLine line = true -> startsWith line (lit "event:") = false.
Proof.
  unfold isDataLine. destruct line as [|c line]; [cbn; discriminate|].
  change (lit "data:") with (100 :: lit "ata:").
  change (lit "event:") with (101 :: lit "vent:").
  cbn [startsWith]. intros H. apply andb_prop in H as [H _].
  apply Z.eqb_eq in H. subst c. reflexivity.
Qed.

Lemma event_line_not_data line :
  startsWith line (lit "event:") = true -> isDataLine line = false.
Proof.
  intros E. destruct (isDataLine line) eqn:D; [|reflexivity].
  apply data_line_not_event in D. congruence.
Qed.

Lemma parseLines_from lines : forall event dataLines,
  snd (fold_left
         (fun st line =>
            if startsWith line (lit "event:")
            then (trim (slice line 6 None), snd st)
            else if startsWith line (lit "data:")
            then (fst st, snd st ++ [trim (slice line 5 None)])
            else st)
         lines (event, dataLines))
  = dataLines ++ map contribution (filter isDataLine lines).
Proof.
  induction lines as [|line lines IH]; intros event dataLines; cbn [fold_left filter].
  - cbn. rewrite app_nil_r. reflexivity.
  - destruct (startsWith line (lit "event:")) eqn:E.
    + rewrite (event_line_not_data _ E), IH. reflexivity.
    + fold (isDataLine line). destruct (isDataLine line).
      * rewrite IH. cbn [snd fst map]. rewrite <- app_assoc. reflexivity.
      * apply IH.
Qed.

Lemma parseLines_data lines :
  snd (parseLines lines) = map contribution (filter isDataLine lines).
Proof. unfold parseLines. rewrite parseLines_from. reflexivity. Qed.

End DataText.

(** C7, as the code has it.  The data text of a frame is the
    contributions of its [data:] lines, in line order, joined with a
    line feed, where a line contributes what follows the prefix with the
    white space at both ends trimmed off; and it is this text that a
    turn of the loop hands to [JSON.parse] (when it is not empty) before
    it dispatches on the event kind. *)
Theorem data_lines_trimmed_and_joined :
  (forall lines : list jsstring,
      join [LF] (snd (parseLines lines))
      = join [LF] (map (fun line => trim (slice line 5 None))
                       (filter (fun line => startsWith line (lit "data:")) lines)))
  /\ (forall JSON_parse L onProgress (idx : Z) (s : Session),
        let raw := trim (slice (buffer s) 0 (Some idx)) in
        let dataStr :=
          join [LF] (map (fun line => trim (slice line 5 None))
                         (filter (fun line => startsWith line (lit "data:"))
                                 (splitLines raw))) in
        nonEmpty raw = true ->
        exists event,
          iteration JSON_parse L onProgress idx s =
          match payload JSON_parse dataStr with
          | Some data =>
              dispatch L onProgress event data (skipFrame idx (event, dataStr) s)
          | None => Throw (SyntaxError dataStr) (skipFrame idx (event, dataStr) s)
          end).
Proof.
  split.
  - intros lines. rewrite parseLines_data. reflexivity.
  - intros JSON_parse L onProgress idx s raw dataStr N.
    destruct (parseLines (splitLines raw)) as [event dataLines] eqn:P.
    exists event. subst dataStr.
    change (join [LF] (map _ (filter _ (splitLines raw))))
      with (join [LF] (map contribution (filter isDataLine (splitLines raw)))).
    rewrite <- parseLines_data, P. cbn [snd].
    apply iteration_frame; assumption.
Qed.

(** C7, as stated, fails: the contributions are not the content after
    the prefix unaltered.  In the frame with the lines [data: a ] and
    [data:  b] the content after the prefixes is [ a ] and [  b], the
    data text is [a], line feed, [b]. *)
Lemma data_text_is_not_unaltered :
  let lines := splitLines (tv "data: a |data:  b") in
  join [LF] (snd (parseLines lines)) = tv "a|b"
  /\ join [LF] (map (fun line => slice line 5 None)
                    (filter (fun line => startsWith line (lit "data:")) lines))
     = tv " a |  b"
  /\ join [LF] (snd (parseLines lines))
     <> join [LF] (map (fun line => slice line 5 None)
                       (filter (fun line => startsWith line (lit "data:")) lines)).
Proof. cbv zeta. repeat split; try reflexivity. vm_compute. discriminate. Qed.

(** ** Error normalisation *)

Section Normalisation.

Import Errors.

Lemma tryParseApiError_message payload :
  option_map Errors.message (tryParseApiError payload) = structuredMessage payload.
Proof.
  unfold tryParseApiError, structuredMessage.
  destruct payload as [| |b|n|str|items|fields]; try reflexivity.
  - destruct b; reflexivity.
  - destruct (truthy (JNumber n)); reflexivity.
  - destruct (truthy (JString str)); reflexivity.
  - cbn [truthy typeofObject negb orb].
    destruct (getProp _ (lit "message")); try reflexivity;
    destruct (getProp _ (lit "code")); try reflexivity;
    destruct (getProp _ (lit "trace_id")); reflexivity.
Qed.

Lemma toUserErrorMessage_table apiErr status :
  toUserErrorMessage apiErr (Some status) =
  match option_map Errors.message apiErr with
  | Some m => if nonEmpty m then m else fallbackTable status
  | None => fallbackTable status
  end.
Proof.
  assert (toUserErrorMessage None (Some status) = fallbackTable status) as T.
  { unfold toUserErrorMessage, fallbackTable, statusIs.
    destruct (status =? 404); [reflexivity|].
    destruct (status =? 408); [reflexivity|].
    destruct (status =? 413); [reflexivity|].
    destruct (status =? 422); [reflexivity|].
    destruct (Z.eqb_spec status 0) as [->|]; [reflexivity|].
    reflexivity. }
  destruct apiErr as [a|]; [|exact T]. cbn [option_map].
  destruct (nonEmpty (Errors.message a)) eqn:N.
  - unfold toUserErrorMessage. rewrite N. reflexivity.
  - rewrite <- T. unfold toUserErrorMessage. rewrite N. reflexivity.
Qed.

End Normalisation.

(** C6, as the code has it.  For a response that is not [ok] the
    request executor throws an error that carries the status of the
    response.  Its message is the [message] field of the payload when
    the payload has the structured error shape and that message is not
    empty; otherwise it is the entry of the status-keyed fallback table.
    The payload is the JSON value of the body when the response declares
    a JSON content type (and [null] when the body is not JSON), and the
    body text, a string, otherwise. *)
Theorem request_error_message :
  forall JSON_parse (res : Response),
    ok res = false ->
    exists e,
      Http.request JSON_parse (Http.Responded res) = Http.Threw (Err e)
      /\ status e = Some (resStatus res)
      /\ messageArg e =
         JString
           (match structuredMessage (Http.errorPayload JSON_parse res) with
            | Some m => if nonEmpty m then m else fallbackTable (resStatus res)
            | None => fallbackTable (resStatus res)
            end).
Proof.
  intros JSON_parse res Ok.
  exists (Http.errorOf JSON_parse res). split; [|split].
  - unfold Http.request, Http.tryBlock. rewrite Ok. reflexivity.
  - reflexivity.
  - unfold Http.errorOf. cbn [messageArg].
    rewrite toUserErrorMessage_table, tryParseApiError_message. reflexivity.
Qed.

(** C6, as stated, fails on a structured body whose message is the empty
    string: for status 422 and the JSON body with [message] empty,
    [code] E1 and [trace_id] t1, the body has the structured shape and
    its message field is the empty string, yet the error's message is
    the fallback text for 422. *)
Lemma structured_empty_message_falls_back :
  let res := {| ok := false; resStatus := 422;
                contentType := Some (lit "application/json");
                text := inr (tv "{'message':'','code':'E1','trace_id':'t1'}");
                body := None |} in
  structuredMessage (Http.errorPayload Json.parse res) = Some []
  /\ option_map messageOf (thrownBy (Http.request Json.parse (Http.Responded res)))
     = Some (Some (lit "Invalid input. Please check the form and try again."))
  /\ option_map messageOf (thrownBy (Http.request Json.parse (Http.Responded res)))
     <> Some (structuredMessage (Http.errorPayload Json.parse res)).
Proof. cbv zeta. repeat split; try reflexivity. vm_compute. discriminate. Qed.

(** ** A stream call that cannot start *)

(** C5, as the code has it.  When the response to a stream call is not
    [ok] or has no body, the call fails at once, before a promise or a
    reader exists: no read is made and the progress callback is not
    called.  The message of the error is the body text of the response
    when that text can be read and is not empty, and otherwise the
    fixed message of the call; the status code, the content type and
    the structure of the body play no part. *)
Theorem stream_init_failure :
  forall JSON_parse onProgress (res : Response),
    ok res = false \/ body res = None ->
    let message (fixed : jsstring) :=
      match text res with
      | inr t => if nonEmpty t then t else fixed
      | inl _ => fixed
      end in
    trainModelStream JSON_parse onProgress res
    = InitFailed (Err (newError (JString (message (lit "Failed to start training stream.")))))
    /\ predictStream JSON_parse onProgress res
       = InitFailed (Err (newError (JString (message (lit "Failed to start prediction stream."))))).
Proof.
  intros JSON_parse onProgress res H message. subst message.
  unfold trainModelStream, predictStream, stream.
  assert (match ok res, body res with true, Some _ => False | _, _ => True end) as C.
  { destruct H as [-> | ->]; [exact I|]. destruct (ok res); exact I. }
  destruct (ok res), (body res); try contradiction;
    (destruct (text res) as [e|t]; [|destruct (nonEmpty t)]);
    split; reflexivity.
Qed.

(** C5, as stated, fails: the stream calls do not normalise the error
    as the request executor does.  For the response with status 422 and
    the structured JSON body whose message is [bad file], the request
    executor's message is [bad file] and the stream call's message is
    the whole body text; for status 500 and an empty body, the request
    executor's message comes from the fallback table and the stream
    call's message is its own fixed one. *)
Lemma stream_init_failure_is_not_normalised :
  let structured := {| ok := false; resStatus := 422;
                       contentType := Some (lit "application/json");
                       text := inr (tv "{'message':'bad file','code':'E1','trace_id':'t1'}");
                       body := None |} in
  let empty := {| ok := false; resStatus := 500; contentType := None;
                  text := inr []; body := None |} in
  let viaRequest res :=
    option_map messageOf (thrownBy (Http.request Json.parse (Http.Responded res))) in
  let viaStream res :=
    option_map messageOf (rejection (outcome (trainModelStream Json.parse None res))) in
  viaRequest structured = Some (Some (lit "bad file"))
  /\ viaStream structured
     = Some (Some (tv "{'message':'bad file','code':'E1','trace_id':'t1'}"))
  /\ viaRequest empty = Some (Some (lit "Server error. Please try again later."))
  /\ viaStream empty = Some (Some (lit "Failed to start training stream."))
  /\ viaStream structured <> viaRequest structured
  /\ viaStream empty <> viaRequest empty.
Proof. cbv zeta. repeat split; try reflexivity; vm_compute; discriminate. Qed.

(** ** Cancellation *)

Section Cancellation.

Variable JSON_parse : jsstring -> option JSValue.
Variable L : Labels.
Variable onProgress : option (list ProgressCall -> ProgressCall -> option Thrown).

Local Abbreviation pump := (pump JSON_parse L onProgress).
Local Abbreviation onChunk := (onChunk JSON_parse L onProgress).
Local Abbreviation readerCalls := (Streams.readerCalls JSON_parse L onProgress).

(** A fetch without signal delivers the reads as they arrive. *)
Lemma bodyReads_deaf init :
  Streams.signal init = None ->
  forall before controller after,
    Abort.bodyReads init (before ++ Abort.Aborts controller :: after)
    = Abort.bodyReads init (before ++ after).
Proof.
  intros N before controller after.
  assert (forall c, Abort.listens init c = false) as Deaf
    by (intros c; unfold Abort.listens; rewrite N; reflexivity).
  induction before as [|[r|c] before IH]; cbn [app Abort.bodyReads].
  - rewrite Deaf. reflexivity.
  - rewrite IH. reflexivity.
  - rewrite Deaf. exact IH.
Qed.

(** [pump] calls nothing but [read] on the reader. *)
Lemma readerCalls_reads reads : forall s,
  Forall (fun call => call = Streams.Read) (readerCalls reads s).
Proof.
  induction reads as [|r reads IH]; intros s; cbn [Streams.readerCalls].
  - repeat constructor.
  - constructor; [reflexivity|].
    destruct r as [value| |e]; [|constructor|constructor].
    destruct (onChunk value s) as [s'|s'|e s']; [apply IH|constructor|constructor].
Qed.

(** While the session is unsettled, every read that was delivered has
    been followed by another call of [read]. *)
Lemma readerCalls_streaming reads : forall s,
  settled (pump reads s) = false ->
  List.length (readerCalls reads s) = S (List.length reads).
Proof.
  induction reads as [|r reads IH]; intros s E; [reflexivity|].
  cbn [Api.pump Streams.readerCalls List.length] in *.
  destruct r as [value| |e]; try (rewrite safeReject_settles in E; discriminate).
  pose proof (onChunk_flag JSON_parse L onProgress value s) as Fl.
  destruct (onChunk value s) as [s'|s'|e s']; cbn [flagAfter] in Fl.
  - rewrite IH by assumption. reflexivity.
  - congruence.
  - rewrite safeReject_settles in E. discriminate.
Qed.

(** Once the session has settled, [read] is not called again: the reads
    that follow are not asked for. *)
Lemma readerCalls_settled reads more : forall s,
  settled s = false ->
  settled (pump reads s) = true ->
  readerCalls (reads ++ more) s = readerCalls reads s
  /\ (List.length (readerCalls reads s) <= List.length reads)%nat.
Proof.
  induction reads as [|r reads IH]; intros s U E; [cbn in E; congruence|].
  cbn [app Api.pump Streams.readerCalls List.length] in *.
  destruct r as [value| |e]; try (split; [reflexivity|cbn; lia]).
  pose proof (onChunk_flag JSON_parse L onProgress value s) as Fl.
  destruct (onChunk value s) as [s'|s'|e s']; cbn [flagAfter] in Fl;
    try (split; [reflexivity|cbn; lia]).
  destruct (IH s' ltac:(congruence) E) as [A B].
  rewrite A. split; [reflexivity|cbn [List.length]; lia].
Qed.

End Cancellation.



(** ** The theorems at work on concrete streams *)

Lemma eof_while_streaming_fails_witness :
  settled (pump Json.parse trainLabels None [Chunk progressChunk] initial) = false
  /\ promise (pump Json.parse trainLabels None ([Chunk progressChunk] ++ [Done]) initial)
     = [Rejected (Err (newError (JString (lit "Training stream ended unexpectedly."))))]
  /\ exists dataStr,
       In (lit "complete", dataStr)
          (frames (pump Json.parse trainLabels None
                     [Chunk progressChunk; Chunk completeChunk; Done] initial))
       /\ Json.parse dataStr = Some (JObject [(lit "model_id", JString (lit "m1"))]).
Proof.
  pose proof (eof_while_streaming_fails Json.parse trainLabels None) as [E [R _]].
  split; [reflexivity|split].
  - rewrite (E [Chunk progressChunk] [] eq_refl). reflexivity.
  - destruct (R [Chunk progressChunk; Chunk completeChunk; Done]
                (JObject [(lit "model_id", JString (lit "m1"))]) eq_refl)
      as (dataStr & I & _ & P & _).
    exists dataStr. split; assumption.
Defined.

Lemma malformed_payload_fails_witness :
  let reads := [Chunk (bytes "event: progress|data: {bad||event: complete|data: {}||"); Done] in
  frames (pump Json.parse trainLabels None reads initial)
  = [] ++ (lit "progress", tv "{bad") :: []
  /\ nonEmpty (tv "{bad") = true
  /\ Json.parse (tv "{bad") = None
  /\ settled (pump Json.parse trainLabels None reads initial) = true
  /\ promise (pump Json.parse trainLabels None reads initial)
     = [Rejected (SyntaxError (tv "{bad"))].
Proof.
  cbv zeta.
  destruct (malformed_payload_fails Json.parse trainLabels None
              [Chunk (bytes "event: progress|data: {bad||event: complete|data: {}||"); Done]
              [] (lit "progress") (tv "{bad") [] eq_refl eq_refl eq_refl)
    as (_ & S & P).
  split; [reflexivity|split; [reflexivity|split; [reflexivity|split]]].
  - exact S.
  - exact P.
Defined.

Lemma progress_without_pct_ignored_witness :
  exists s',
    iteration Json.parse trainLabels None 35 midLoop = Normal s'
    /\ buffer s' = tv "event: complete|data: {'model_id':'m1'}||"
    /\ settled s' = false
    /\ promise s' = []
    /\ progress s' = [].
Proof.
  destruct (progress_without_pct_ignored Json.parse trainLabels None midLoop
              [tv "{'pct':'ten'}"] (JObject [(lit "pct", JString (lit "ten"))]))
    as (s' & I & B & _ & S & P & G & _).
  - apply Z.leb_le. reflexivity.
  - reflexivity.
  - reflexivity.
  - reflexivity.
  - reflexivity.
  - exists s'. repeat split; [exact I|exact B|exact S|exact P|exact G].
Defined.

Lemma empty_terminal_frame_ignored_witness :
  exists s',
    iteration Json.parse trainLabels None 15 midLoopEmptyComplete = Normal s'
    /\ buffer s' = tv "event: progress|data: {'pct':10}||"
    /\ settled s' = false
    /\ promise s' = [].
Proof.
  destruct (proj1 (empty_terminal_frame_ignored Json.parse trainLabels None)
              midLoopEmptyComplete (lit "complete") [])
    as (s' & I & B & S & P & _).
  - apply Z.leb_le. reflexivity.
  - reflexivity.
  - reflexivity.
  - left. reflexivity.
  - reflexivity.
  - exists s'. repeat split; [exact I|exact B|exact S|exact P].
Defined.

Lemma data_lines_trimmed_and_joined_witness :
  nonEmpty (trim (slice (buffer midLoop) 0 (Some 35))) = true
  /\ exists event,
       iteration Json.parse trainLabels None 35 midLoop
       = dispatch trainLabels None event (JObject [(lit "pct", JString (lit "ten"))])
           (skipFrame 35 (event, tv "{'pct':'ten'}") midLoop).
Proof.
  split; [reflexivity|].
  destruct (proj2 data_lines_trimmed_and_joined Json.parse trainLabels None 35 midLoop eq_refl)
    as (event & E).
  exists event. exact E.
Defined.

Lemma request_error_message_witness :
  let res := {| ok := false; resStatus := 422;
                contentType := Some (lit "application/json");
                text := inr (tv "{'message':'bad file','code':'E1','trace_id':'t1'}");
                body := None |} in
  ok res = false
  /\ exists e,
       Http.request Json.parse (Http.Responded res) = Http.Threw (Err e)
       /\ status e = Some 422
       /\ messageArg e = JString (lit "bad file").
Proof.
  cbv zeta. split; [reflexivity|].
  destruct (request_error_message Json.parse
              {| ok := false; resStatus := 422;
                 contentType := Some (lit "application/json");
                 text := inr (tv "{'message':'bad file','code':'E1','trace_id':'t1'}");
                 body := None |} eq_refl) as (e & R & S & M).
  exists e. repeat split; [exact R|exact S|exact M].
Defined.

Lemma stream_init_failure_witness :
  let res := {| ok := false; resStatus := 503; contentType := None;
                text := inr (lit "upstream unavailable"); body := Some [Done] |} in
  trainModelStream Json.parse None res
  = InitFailed (Err (newError (JString (lit "upstream unavailable"))))
  /\ predictStream Json.parse None res
     = InitFailed (Err (newError (JString (lit "upstream unavailable")))).
Proof.
  cbv zeta.
  exact (stream_init_failure Json.parse None
           {| ok := false; resStatus := 503; contentType := None;
              text := inr (lit "upstream unavailable"); body := Some [Done] |}
           (or_introl eq_refl)).
Defined.


(** ** Examples *)

Example indexOf_found : indexOf (tv "ab||cd||") [LF; LF] = 2.
Proof. vm_compute. reflexivity. Qed.

Example indexOf_absent : indexOf (tv "ab|cd|") [LF; LF] = -1.
Proof. vm_compute. reflexivity. Qed.

Example slice_tail : slice (tv "ab||cd") 4 None = lit "cd".
Proof. vm_compute. reflexivity. Qed.

Example slice_negative : slice (lit "abcdef") (-3) (Some (-1)) = lit "de".
Proof. vm_compute. reflexivity. Qed.

Example trim_both : trim (tv " |a b | ") = lit "a b".
Proof. vm_compute. reflexivity. Qed.

Example splitLines_crlf :
  splitLines [97; CR; LF; 98; LF; CR; 99; LF] = [[97]; [98]; [CR; 99]; []].
Proof. vm_compute. reflexivity. Qed.

Example join_lines : join [LF] [lit "a"; lit "b"; lit "c"] = tv "a|b|c".
Proof. vm_compute. reflexivity. Qed.

(** The byte order mark is dropped, and a two-byte sequence cut between
    two calls comes out after the second. *)
Example decode_cut_sequence :
  let (d, first) := decode newTextDecoder [xef; xbb; xbf; x41; xc3] in
  first = [65] /\ snd (decode d [xa9; x42]) = [233; 66].
Proof. vm_compute. split; reflexivity. Qed.

(** A code point outside the basic plane becomes a surrogate pair; a
    byte that cannot continue a sequence gives the replacement
    character and is read again. *)
Example decode_astral_and_invalid :
  snd (decode newTextDecoder [xf0; x9f; x98; x80; xc3; x41])
  = [55357; 56832; 65533; 65].
Proof. vm_compute. reflexivity. Qed.

Example parse_object :
  Json.parse (tv "{'pct': 12.5, 'message': 'half', 'tags': [true, null]}")
  = Some (JObject [(lit "pct", JNumber (Finite 125 (-1)));
                   (lit "message", JString (lit "half"));
                   (lit "tags", JArray [JBool true; JNull])]).
Proof. vm_compute. reflexivity. Qed.

(** A number is the double that its literal denotes. *)
Example parse_numbers :
  Json.parse (lit "1e-400") = Some (JNumber (Finite 0 0))
  /\ Json.parse (lit "1e400") = Some (JNumber (Infinity false))
  /\ Json.parse (lit "9007199254740993") = Some (JNumber (Finite 9007199254740992 0))
  /\ Json.parse (lit "1e1") = Some (JNumber (Finite 10 0))
  /\ Json.parse (lit "-2.50") = Some (JNumber (Finite (-25) (-1)))
  /\ Json.parse (lit "0.1")
     = Some (JNumber
               (Finite 1000000000000000055511151231257827021181583404541015625 (-55))).
Proof. vm_compute. repeat split; reflexivity. Qed.

Example parse_rejects :
  Json.parse (tv "{bad") = None /\ Json.parse (tv "[1,]") = None
  /\ Json.parse (tv "01") = None /\ Json.parse (tv "'a' x") = None.
Proof. vm_compute. repeat split; reflexivity. Qed.

(** The scenario of the specification: one [progress] frame, then a
    [complete] frame.  The call resolves with the result and the
    callback has been called once, with 10 and [undefined]. *)
Example train_progress_then_complete :
  let res := {| ok := true; resStatus := 200;
                contentType := Some (lit "text/event-stream"); text := inr [];
                body := Some [Chunk progressChunk; Chunk completeChunk] |} in
  match trainModelStream Json.parse (Some (fun _ _ => None)) res with
  | Started s =>
      promise s = [Resolved (JObject [(lit "model_id", JString (lit "m1"))])]
      /\ progress s = [(JNumber (Finite 10 0), JUndefined)]
  | InitFailed _ => False
  end.
Proof. vm_compute. split; reflexivity. Qed.

(** Frames behind a [complete] frame in the same chunk are not looked at. *)
Example frames_after_complete_are_left :
  let s := pump Json.parse predictLabels None
             [Chunk (completeChunk ++ bytes "event: error|data: {'message':'late'}||");
              Done] initial in
  promise s = [Resolved (JObject [(lit "model_id", JString (lit "m1"))])]
  /\ buffer s = tv "event: error|data: {'message':'late'}||".
Proof. vm_compute. split; reflexivity. Qed.

(** An [error] frame rejects with its message, or with the fixed one. *)
Example error_frame_messages :
  promise (pump Json.parse trainLabels None
             [Chunk (bytes "event: error|data: {'message':'out of memory'}||")] initial)
  = [Rejected (Err (newError (JString (lit "out of memory"))))]
  /\ promise (pump Json.parse trainLabels None
                [Chunk (bytes "event: error|data: {'detail':1}||")] initial)
     = [Rejected (Err (newError (JString (lit "Training failed."))))].
Proof. vm_compute. split; reflexivity. Qed.

(** A stream cut inside the delimiter and inside a two-byte character. *)
Example cut_inside_delimiter_and_character :
  let whole := bytes "event: progress|data: {'pct':1,'message':'" ++ [xc3; xa9]
               ++ bytes "'}||" ++ completeChunk in
  let cut := [bytes "event: progress|data: {'pct':1,'message':'" ++ [xc3];
              [xa9] ++ bytes "'}|"; bytes "|" ++ completeChunk] in
  List.concat cut = whole
  /\ progress (pump Json.parse trainLabels (Some (fun _ _ => None)) (map Chunk cut) initial)
     = [(JNumber (Finite 1 0), JString [233])]
  /\ pump Json.parse trainLabels (Some (fun _ _ => None)) (map Chunk cut) initial
     = pump Json.parse trainLabels (Some (fun _ _ => None)) [Chunk whole] initial.
Proof. vm_compute. repeat split; reflexivity. Qed.

(** A response that is not [ok] and has a body that is not JSON, with
    status 500: the message of the fallback table. *)
Example request_unparsable_500 :
  option_map messageOf
    (thrownBy (Http.request Json.parse
                 (Http.Responded {| ok := false; resStatus := 500;
                                    contentType := Some (lit "application/json");
                                    text := inr (lit "<html>oops</html>");
                                    body := None |})))
  = Some (Some (lit "Server error. Please try again later.")).
Proof. vm_compute. reflexivity. Qed.

(** An aborted [fetch] is reported as a timeout with status 408. *)
Example request_timeout :
  Http.request Json.parse
    (Http.FetchThrew (Foreign true (lit "AbortError") (lit "The user aborted a request.")))
  = Http.Threw
      (Err {| messageArg := JString (lit "Request timed out. Please try again.");
              status := Some 408; code := None; traceId := None;
              details := JUndefined |}).
Proof. vm_compute. reflexivity. Qed.

(** * Further properties of the stream readers *)

Import MoreVocabulary.

Section Lists.

Context {A : Type}.

(** Where an element of a list that ends in [f] can be. *)
Lemma snoc_eq_middle (pre' pre post : list A) (f x : A) :
  pre' ++ [f] = pre ++ x :: post ->
  (post = [] /\ pre' = pre /\ f = x)
  \/ exists post', post = post' ++ [f] /\ pre' = pre ++ x :: post'.
Proof.
  intros E. destruct (rev post) as [|y tsop] eqn:R;
    apply (f_equal (@rev A)) in R; rewrite rev_involutive in R; cbn in R;
    subst post.
  - left. apply app_inj_tail in E as [-> ->]. auto.
  - right. exists (rev tsop).
    change (pre ++ x :: rev tsop ++ [y]) with (pre ++ (x :: rev tsop) ++ [y]) in E.
    rewrite app_assoc in E. apply app_inj_tail in E as [-> ->]. auto.
Qed.

Lemma last_cons (x d : A) (l : list A) : last (x :: l) d = last l x.
Proof.
  revert x d. induction l as [|y l IH]; intros x d; [reflexivity|].
  change (last (x :: y :: l) d) with (last (y :: l) d).
  rewrite !IH. reflexivity.
Qed.

End Lists.

Lemma eqs_same a : eqs a a = true.
Proof. induction a as [|x a IH]; cbn; [|rewrite Z.eqb_refl]; auto. Qed.

Lemma eqs_differ a b : a <> b -> eqs a b = false.
Proof.
  intros N. destruct (eqs a b) eqn:E; [|reflexivity].
  apply eqs_eq in E. contradiction.
Qed.

(** ** The progress callback hears every progress frame, in order *)

Section ProgressCalls.

Variable JSON_parse : jsstring -> option JSValue.
Variable L : Labels.

Local Abbreviation progressCallOf := (progressCallOf JSON_parse).

Lemma safeResolve_progress data s : progress (safeResolve data s) = progress s.
Proof. unfold safeResolve. destruct (settled s); reflexivity. Qed.

Lemma safeReject_progress e s : progress (safeReject e s) = progress s.
Proof. unfold safeReject. destruct (settled s); reflexivity. Qed.

Lemma handled_frames onProgress s event dataStr c :
  Handled JSON_parse L onProgress s event dataStr c ->
  frames (stateOf c) = frames s.
Proof.
  intros H. inversion H; subst; cbn [stateOf];
    rewrite ?safeResolve_frames, ?safeReject_frames; reflexivity.
Qed.

Lemma handled_progress onProgress s event dataStr c :
  Handled JSON_parse L onProgress s event dataStr c ->
  progress (stateOf c) =
  progress s ++ match onProgress with
                | Some _ => progressCallOf (event, dataStr)
                | None => []
                end.
Proof.
  intros H. unfold Vocabulary.progressCallOf. cbn [fst snd].
  inversion H; subst; cbn [stateOf recordProgress progress];
    rewrite ?safeResolve_progress, ?safeReject_progress;
    repeat match goal with
           | E : Vocabulary.payload _ _ = Some _ |- _ => rewrite E; clear E
           | E : truthy _ = true |- _ => rewrite E; clear E
           | E : typeofNumber _ = true |- _ => rewrite E; clear E
           | E : (_ && _ && _) = false |- _ => rewrite E; clear E
           end;
    try (unfold payload;
         match goal with
         | E1 : nonEmpty _ = true, E2 : JSON_parse _ = None |- _ => rewrite E1, E2
         end);
    try destruct onProgress; cbn; rewrite ?app_nil_r; reflexivity.
Qed.

Lemma pump_progress onProgress reads :
  progress (pump JSON_parse L onProgress reads initial) =
  match onProgress with
  | Some _ => flat_map progressCallOf (frames (pump JSON_parse L onProgress reads initial))
  | None => []
  end.
Proof.
  set (agree := fun s : Session =>
         progress s = match onProgress with
                      | Some _ => flat_map progressCallOf (frames s)
                      | None => []
                      end).
  assert (forall e s, agree s -> agree (safeReject e s)) as Rej.
  { intros e s. unfold agree, safeReject. destruct (settled s); auto. }
  apply (pump_invariant JSON_parse L onProgress agree agree).
  - intros s s'. unfold observe, agree. intros [= _ _ -> ->]. auto.
  - intros s event dataStr c A H.
    pose proof (handled_progress _ _ _ _ _ H) as P.
    pose proof (handled_frames _ _ _ _ _ H) as F.
    assert (agree (stateOf c)) as A'.
    { unfold agree in *. rewrite P, F. cbn [recordFrame progress frames].
      rewrite A. destruct onProgress; [|reflexivity].
      rewrite flat_map_app. cbn [flat_map]. rewrite app_nil_r. reflexivity. }
    destruct c; cbn [stateOf] in A'; auto.
  - auto.
  - intros s e. apply Rej.
  - unfold agree. destruct onProgress; reflexivity.
Qed.

End ProgressCalls.

(** X1. The progress callback is called once for every [progress]
    frame that the session parses and whose payload has a numeric
    [pct], with that frame's [pct] and [message], in the order of the
    frames, and for nothing else; without a callback nothing is
    recorded. *)
Theorem progress_calls_follow_frames :
  forall JSON_parse L (reads : list ReadResult),
    (forall callback,
        progress (pump JSON_parse L (Some callback) reads initial)
        = flat_map (progressCallOf JSON_parse)
                   (frames (pump JSON_parse L (Some callback) reads initial)))
    /\ progress (pump JSON_parse L None reads initial) = [].
Proof.
  intros JSON_parse L reads. split.
  - intros callback. apply (pump_progress JSON_parse L (Some callback)).
  - apply (pump_progress JSON_parse L None).
Qed.

(** ** Terminal frames *)

Section TerminalFrames.

Variable JSON_parse : jsstring -> option JSValue.
Variable L : Labels.
Variable onProgress : option (list ProgressCall -> ProgressCall -> option Thrown).

Local Abbreviation pump := (pump JSON_parse L onProgress).
Local Abbreviation terminal := (terminal JSON_parse).
Local Abbreviation beforeTerminal := (beforeTerminal JSON_parse).
Local Abbreviation stoppedAtTerminal := (stoppedAtTerminal JSON_parse L).

Lemma malformed_not_terminal event dataStr :
  nonEmpty dataStr = true -> JSON_parse dataStr = None ->
  ~ terminal (event, dataStr).
Proof.
  intros N P (data & D & _). cbn in D. unfold payload in D.
  rewrite N in D. congruence.
Qed.

Lemma progress_not_terminal dataStr : ~ terminal (lit "progress", dataStr).
Proof. intros (data & _ & _ & [E|E]); cbn in E; discriminate. Qed.

Lemma ignored_not_terminal event dataStr data :
  payload JSON_parse dataStr = Some data ->
  (eqs event (lit "complete") && truthy data) = false ->
  (eqs event (lit "error") && truthy data) = false ->
  ~ terminal (event, dataStr).
Proof.
  intros P C E (data' & D & T & K). cbn [fst snd] in *.
  rewrite P in D. injection D as <-. rewrite T, andb_true_r in C, E.
  destruct K as [->| ->]; rewrite eqs_same in *; discriminate.
Qed.

Lemma Forall_snoc {A} (P : A -> Prop) l x : Forall P l -> P x -> Forall P (l ++ [x]).
Proof. intros H Hx. apply Forall_app. split; [assumption|]. repeat constructor. assumption. Qed.

Lemma pump_stoppedAtTerminal reads : stoppedAtTerminal (pump reads initial).
Proof.
  apply (pump_invariant JSON_parse L onProgress beforeTerminal stoppedAtTerminal).
  - intros s s'. unfold observe. intros [= E P _ F] [U W]. split.
    + revert U. apply unsettled_same; assumption.
    + rewrite <- F. assumption.
  - intros s event dataStr c [U W] H.
    assert (unsettled (recordFrame (event, dataStr) s)) as U'
      by (revert U; apply unsettled_same; reflexivity).
    inversion H; subst; clear H.
    + left. rewrite safeReject_frames. cbn.
      apply Forall_snoc; [assumption|]. apply malformed_not_terminal; assumption.
    + split; [revert U'; apply unsettled_same; reflexivity|].
      cbn. apply Forall_snoc; [assumption|]. apply progress_not_terminal.
    + left. rewrite safeReject_frames. cbn.
      apply Forall_snoc; [assumption|]. apply progress_not_terminal.
    + split; [assumption|].
      cbn. apply Forall_snoc; [assumption|]. apply progress_not_terminal.
    + right. exists (frames s), (lit "complete", dataStr), data.
      rewrite safeResolve_frames.
      destruct (safeResolve_unsettled data _ U') as [_ ->].
      repeat split; auto.
    + right. exists (frames s), (lit "error", dataStr), data.
      rewrite safeReject_frames.
      destruct (safeReject_unsettled
                  (Err (newError (orElse (getProp data (lit "message"))
                                         (JString (failed L))))) _ U') as [_ ->].
      repeat split; auto.
    + split; [assumption|].
      cbn. apply Forall_snoc; [assumption|].
      eapply ignored_not_terminal; eauto.
  - intros s [_ W]. left. assumption.
  - intros s e [_ W]. left. rewrite safeReject_frames. assumption.
  - split; [split; reflexivity|constructor].
Qed.

(** A terminal frame in the frames of a run is the last one, and the
    promise is settled as it says. *)
Lemma terminal_frame_settles reads pre event dataStr post data :
  frames (pump reads initial) = pre ++ (event, dataStr) :: post ->
  payload JSON_parse dataStr = Some data ->
  truthy data = true ->
  event = lit "complete" \/ event = lit "error" ->
  post = []
  /\ promise (pump reads initial)
     = [settlementOfFrame L (event, dataStr) data].
Proof.
  intros F P T K.
  assert (terminal (event, dataStr)) as Term by (exists data; auto).
  destruct (pump_stoppedAtTerminal reads)
    as [W|(pre' & f & data' & F' & W & P' & _ & _ & Pr)].
  - rewrite F in W. apply Forall_app in W as [_ W].
    inversion W; subst. contradiction.
  - rewrite F in F'. symmetry in F'.
    apply snoc_eq_middle in F' as [(-> & -> & ->)|(post' & -> & ->)].
    + cbn [snd] in P'. rewrite P in P'. injection P' as <-. auto.
    + apply Forall_app in W as [_ W]. inversion W; subst. contradiction.
Qed.

End TerminalFrames.

(** X2. A [complete] frame with a truthy payload that a session parses
    is the last frame it parses, and the promise is resolved with
    exactly that payload. *)
Theorem complete_frame_resolves :
  forall JSON_parse L onProgress reads pre dataStr post data,
    frames (pump JSON_parse L onProgress reads initial)
    = pre ++ (lit "complete", dataStr) :: post ->
    payload JSON_parse dataStr = Some data ->
    truthy data = true ->
    post = []
    /\ promise (pump JSON_parse L onProgress reads initial) = [Resolved data].
Proof.
  intros JSON_parse L onProgress reads pre dataStr post data F P T.
  apply (terminal_frame_settles JSON_parse L onProgress reads pre
           (lit "complete") dataStr post data); auto.
Qed.

(** X3. An [error] frame with a truthy payload that a session parses is
    the last frame it parses, and the promise is rejected with an error
    made from the payload's [message] when that is truthy, and from the
    fixed message of the call (training or prediction failed)
    otherwise. *)
Theorem error_frame_rejects :
  forall JSON_parse L onProgress reads pre dataStr post data,
    frames (pump JSON_parse L onProgress reads initial)
    = pre ++ (lit "error", dataStr) :: post ->
    payload JSON_parse dataStr = Some data ->
    truthy data = true ->
    post = []
    /\ promise (pump JSON_parse L onProgress reads initial)
       = [Rejected
            (Err (newError
                    (if truthy (getProp data (lit "message"))
                     then getProp data (lit "message")
                     else JString (failed L))))].
Proof.
  intros JSON_parse L onProgress reads pre dataStr post data F P T.
  apply (terminal_frame_settles JSON_parse L onProgress reads pre
           (lit "error") dataStr post data); auto.
Qed.

(** ** The buffer of a session that is still streaming *)

Section Buffer.

Variable JSON_parse : jsstring -> option JSValue.
Variable L : Labels.
Variable onProgress : option (list ProgressCall -> ProgressCall -> option Thrown).

Local Abbreviation pump := (pump JSON_parse L onProgress).
Local Abbreviation loop := (loop JSON_parse L onProgress).
Local Abbreviation iteration := (iteration JSON_parse L onProgress).
Local Abbreviation onChunk := (onChunk JSON_parse L onProgress).
Local Abbreviation drain := (drain JSON_parse L onProgress).

Lemma startsWith_split p : forall s,
  startsWith s p = true -> s = p ++ skipn (List.length p) s.
Proof.
  induction p as [|c p IH]; intros [|d s] H; cbn in *; try reflexivity;
    try discriminate.
  apply andb_prop in H as [E H]. apply Z.eqb_eq in E. subst d.
  f_equal. apply IH. exact H.
Qed.

Lemma startsWith_itself p : startsWith p p = true.
Proof. induction p as [|c p IH]; cbn; [reflexivity|]. rewrite Z.eqb_refl. exact IH. Qed.

(** The text around the first occurrence. *)
Lemma find_split needle s : forall k,
  find s needle = Some k ->
  s = firstn k s ++ needle ++ skipn (k + List.length needle) s.
Proof.
  induction s as [|c s IH]; intros k.
  - rewrite find_nil. destruct needle; [|discriminate]. intros [= <-]. reflexivity.
  - rewrite find_cons. destruct (startsWith (c :: s) needle) eqn:E.
    + intros [= <-]. cbn [firstn app Nat.add]. apply startsWith_split. exact E.
    + destruct (find s needle) as [j|]; [|discriminate]. intros [= <-].
      cbn [firstn skipn Nat.add app]. f_equal. apply IH. reflexivity.
Qed.

(** What precedes the first occurrence is a block. *)
Lemma find_block needle s : forall k,
  find s needle = Some k -> find (firstn k s ++ needle) needle = Some k.
Proof.
  induction s as [|c s IH]; intros k.
  - rewrite find_nil. destruct needle; [|discriminate]. intros [= <-]. reflexivity.
  - intros F. pose proof (find_split needle _ _ F) as Sp. revert F.
    rewrite find_cons. destruct (startsWith (c :: s) needle) eqn:E.
    + intros [= <-]. cbn [firstn app]. destruct needle as [|n needle]; [reflexivity|].
      rewrite find_cons, startsWith_itself. reflexivity.
    + destruct (find s needle) as [j|] eqn:Fj; [|discriminate]. intros [= <-].
      cbn [firstn app] in *. rewrite find_cons.
      rewrite (IH j eq_refl). cbn [option_map].
      assert (startsWith (c :: firstn j s ++ needle) needle = false) as ->;
        [|reflexivity].
      rewrite <- E.
      transitivity
        (startsWith ((c :: firstn j s ++ needle)
                       ++ skipn (S j + List.length needle) (c :: s)) needle).
      * symmetry. apply startsWith_app. cbn [List.length].
        rewrite length_app. lia.
      * f_equal. cbn [app]. rewrite <- app_assoc. symmetry. exact Sp.
Qed.

Lemma dispatch_frames event data s :
  frames (stateOf (dispatch L onProgress event data s)) = frames s.
Proof.
  unfold dispatch.
  destruct (eqs event (lit "progress") && truthy data && _).
  - destruct onProgress as [callback|]; [|reflexivity].
    destruct (callback _ _); reflexivity.
  - destruct (eqs event (lit "complete") && truthy data);
      [apply safeResolve_frames|].
    destruct (eqs event (lit "error") && truthy data);
      [apply safeReject_frames|reflexivity].
Qed.

(** A turn of the loop records the frame of the block it takes, unless
    the block is blank. *)
Lemma iteration_frames idx s :
  frames (stateOf (iteration idx s))
  = frames s ++ framesOf [slice (buffer s) 0 (Some idx)].
Proof.
  unfold Api.iteration, framesOf, frameOf, isBlank. cbn [filter].
  destruct (nonEmpty (trim _)); cbn [negb map]; [|rewrite app_nil_r; reflexivity].
  destruct (parseLines _) as [event dataLines].
  destruct (nonEmpty (join _ _)); [destruct (JSON_parse _); [|reflexivity]|];
    rewrite dispatch_frames; reflexivity.
Qed.

Lemma framed_app a b : framed (a ++ b) = framed a ++ framed b.
Proof. unfold framed. rewrite map_app, concat_app. reflexivity. Qed.

Lemma framesOf_app a b : framesOf (a ++ b) = framesOf a ++ framesOf b.
Proof. unfold framesOf. rewrite filter_app, map_app. reflexivity. Qed.

(** When the loop completes normally, it has taken whole blocks off the
    buffer, has recorded their frames, and has left no delimiter in the
    rest. *)
Lemma loop_consumes fuel : forall s s',
  (List.length (buffer s) <= fuel)%nat ->
  loop fuel s = Normal s' ->
  find (buffer s') [LF; LF] = None
  /\ exists blocks,
       buffer s = framed blocks ++ buffer s'
       /\ Forall isBlock blocks
       /\ frames s' = frames s ++ framesOf blocks.
Proof.
  induction fuel as [|fuel IH]; intros s s' Len; rewrite loop_unfold;
    destruct (find (buffer s) [LF; LF]) as [k|] eqn:F;
    try (intros [= <-]; split; [assumption|exists []; cbn; rewrite app_nil_r; auto]).
  - apply find_bound in F. cbn [List.length] in F. lia.
  - pose proof (iteration_shortens JSON_parse L onProgress _ _ F) as Sh.
    pose proof (iteration_buffer JSON_parse L onProgress (Z.of_nat k) s) as B.
    pose proof (iteration_frames (Z.of_nat k) s) as Fr.
    pose proof (find_bound _ _ _ F) as Bd. cbn [List.length] in Bd.
    replace (Z.of_nat k + 2) with (Z.of_nat (k + 2)) in B by lia.
    rewrite slice_suffix in B by lia.
    rewrite slice_prefix in Fr by lia.
    destruct (iteration (Z.of_nat k) s) as [s1|s1|e s1]; try discriminate.
    cbn [stateOf] in *. intros E.
    destruct (IH s1 s' ltac:(lia) E) as [N (blocks & C & Bl & Fs)].
    split; [assumption|].
    exists (firstn k (buffer s) :: blocks). split; [|split].
    + change (framed (firstn k (buffer s) :: blocks))
        with ((firstn k (buffer s) ++ [LF; LF]) ++ framed blocks).
      rewrite <- !app_assoc, <- C, B.
      exact (find_split [LF; LF] _ _ F).
    + constructor; [|assumption].
      unfold isBlock. rewrite indexOf_find, (find_block _ _ _ F).
      rewrite length_firstn. f_equal. lia.
    + rewrite Fs, Fr.
      change (firstn k (buffer s) :: blocks) with ([firstn k (buffer s)] ++ blocks).
      rewrite framesOf_app, app_assoc. reflexivity.
Qed.

Lemma onChunk_consumes value s s' :
  onChunk value s = Normal s' ->
  find (buffer s') [LF; LF] = None
  /\ decoder s' = fst (decode (decoder s) value)
  /\ exists blocks,
       buffer s ++ snd (decode (decoder s) value) = framed blocks ++ buffer s'
       /\ Forall isBlock blocks
       /\ frames s' = frames s ++ framesOf blocks.
Proof.
  intros E. pose proof E as E'. rewrite onChunk_drain in E.
  pose proof (drain_decoder JSON_parse L onProgress
                (appendBuffer (snd (decode (decoder s) value))
                   (setDecoder (fst (decode (decoder s) value)) s))) as D.
  unfold Vocabulary.drain in *. rewrite E in D. cbn [stateOf] in D.
  apply loop_consumes in E; [|lia].
  destruct E as [N C]. auto.
Qed.

(** The streaming session after some chunks: no delimiter in the
    buffer, the decoder where the bytes have left it, and the decoded
    text the blocks taken, whose frames are recorded, followed by the
    buffer. *)
Lemma pump_chunks_buffer chunks : forall s,
  find (buffer s) [LF; LF] = None ->
  settled s = false ->
  settled (pump (map Chunk chunks) s) = false ->
  find (buffer (pump (map Chunk chunks) s)) [LF; LF] = None
  /\ decoder (pump (map Chunk chunks) s)
     = fst (decode (decoder s) (List.concat chunks))
  /\ exists blocks,
       buffer s ++ snd (decode (decoder s) (List.concat chunks))
       = framed blocks ++ buffer (pump (map Chunk chunks) s)
       /\ Forall isBlock blocks
       /\ frames (pump (map Chunk chunks) s) = frames s ++ framesOf blocks.
Proof.
  induction chunks as [|c chunks IH]; intros s N U E.
  - cbn. destruct s as [b d ? ? ? ?]; cbn in *. destruct d as [u bom]; cbn.
    repeat split; auto. exists []. cbn. rewrite !app_nil_r. auto.
  - cbn [map List.concat Api.pump] in *. rewrite decode_app.
    pose proof (onChunk_flag JSON_parse L onProgress c s) as Fl.
    pose proof (onChunk_consumes c s) as C.
    destruct (onChunk c s) as [s1|s1|e s1]; cbn [flagAfter] in Fl.
    + destruct (C s1 eq_refl) as (N1 & D1 & blocks1 & B1 & I1 & F1).
      destruct (IH s1 N1 ltac:(congruence) E) as (N2 & D2 & blocks2 & B2 & I2 & F2).
      destruct (decode (decoder s) c) as [d1 t1]. cbn [fst snd] in *. subst d1.
      destruct (decode (decoder s1) (List.concat chunks)) as [d2 t2]. cbn [fst snd] in *.
      repeat split; auto.
      exists (blocks1 ++ blocks2). split; [|split].
      * rewrite framed_app, app_assoc, B1, <- !app_assoc, B2. reflexivity.
      * apply Forall_app. split; assumption.
      * rewrite F2, F1, framesOf_app, app_assoc. reflexivity.
    + congruence.
    + rewrite safeReject_settles in E. discriminate.
Qed.

End Buffer.

(** X4. While a session is streaming (whatever it has read, as long as
    it has not settled), its buffer holds no blank-line delimiter: every
    frame that has arrived in full has been taken out and handled. *)
Theorem streaming_buffer_has_no_delimiter :
  forall JSON_parse L onProgress (chunks : list (list byte)),
    settled (pump JSON_parse L onProgress (map Chunk chunks) initial) = false ->
    indexOf (buffer (pump JSON_parse L onProgress (map Chunk chunks) initial)) [LF; LF]
    = -1.
Proof.
  intros JSON_parse L onProgress chunks E.
  destruct (pump_chunks_buffer JSON_parse L onProgress chunks initial
              eq_refl eq_refl E) as [N _].
  rewrite indexOf_find, N. reflexivity.
Qed.

(** X5. While a session is streaming, nothing of what it has received
    is lost, however the bytes were cut into chunks.  The decoder is in
    the state in which all the bytes read so far leave it.  The text
    decoded from them is a sequence of blocks, each followed by the
    delimiter and each ending at the first delimiter after its start,
    followed by the buffer, which holds no delimiter; and the frames
    that the session has parsed are the frames of exactly those blocks,
    in their order, the blank blocks left out. *)
Theorem streaming_buffer_keeps_the_rest :
  forall JSON_parse L onProgress (chunks : list (list byte)),
    settled (pump JSON_parse L onProgress (map Chunk chunks) initial) = false ->
    decoder (pump JSON_parse L onProgress (map Chunk chunks) initial)
    = fst (decode newTextDecoder (List.concat chunks))
    /\ exists blocks,
         snd (decode newTextDecoder (List.concat chunks))
         = List.concat (map (fun block => block ++ [LF; LF]) blocks)
           ++ buffer (pump JSON_parse L onProgress (map Chunk chunks) initial)
         /\ Forall (fun block =>
                      indexOf (block ++ [LF; LF]) [LF; LF]
                      = Z.of_nat (List.length block)) blocks
         /\ indexOf (buffer (pump JSON_parse L onProgress (map Chunk chunks) initial))
                    [LF; LF] = -1
         /\ frames (pump JSON_parse L onProgress (map Chunk chunks) initial)
            = map frameOf (filter (fun block => nonEmpty (trim block)) blocks).
Proof.
  intros JSON_parse L onProgress chunks E.
  destruct (pump_chunks_buffer JSON_parse L onProgress chunks initial
              eq_refl eq_refl E) as (N & D & blocks & B & I & F).
  split; [exact D|]. exists blocks. split; [exact B|]. split; [exact I|].
  split; [rewrite indexOf_find, N; reflexivity|].
  rewrite F. cbn [frames initial app]. unfold framesOf, isBlank.
  f_equal. apply filter_ext. intros b. apply negb_involutive.
Qed.

(** ** Frames of other kinds, and the kind of a frame *)

(** X6. A frame whose event kind is none of [progress], [complete] and
    [error] (the default kind [message] among them) and whose data text
    is empty or valid JSON is ignored: the turn of the loop completes
    normally, the buffer has advanced past the frame, and the flag, the
    promise and the progress calls are as before. *)
Theorem unknown_event_ignored :
  forall JSON_parse L onProgress (s : Session) (event : jsstring)
         (dataLines : list jsstring) (data : JSValue),
    let idx := indexOf (buffer s) [LF; LF] in
    let raw := trim (slice (buffer s) 0 (Some idx)) in
    0 <= idx ->
    nonEmpty raw = true ->
    parseLines (splitLines raw) = (event, dataLines) ->
    payload JSON_parse (join [LF] dataLines) = Some data ->
    event <> lit "progress" -> event <> lit "complete" -> event <> lit "error" ->
    exists s',
      iteration JSON_parse L onProgress idx s = Normal s'
      /\ buffer s' = slice (buffer s) (idx + 2) None
      /\ settled s' = settled s
      /\ promise s' = promise s
      /\ progress s' = progress s
      /\ drain JSON_parse L onProgress s = drain JSON_parse L onProgress s'.
Proof.
  intros JSON_parse L onProgress s event dataLines data idx raw I N P D Np Nc Ne.
  exists (skipFrame idx (event, join [LF] dataLines) s).
  assert (iteration JSON_parse L onProgress idx s
          = Normal (skipFrame idx (event, join [LF] dataLines) s)) as E.
  { rewrite (iteration_frame _ _ _ _ _ _ _ N P), D.
    unfold dispatch. rewrite !eqs_differ by assumption. reflexivity. }
  repeat split; try reflexivity; [assumption|].
  apply drain_normal; assumption.
Qed.

Section EventKind.

Lemma parseLines_event lines : forall event dataLines,
  fst (fold_left
         (fun st line =>
            if startsWith line (lit "event:")
            then (trim (slice line 6 None), snd st)
            else if startsWith line (lit "data:")
            then (fst st, snd st ++ [trim (slice line 5 None)])
            else st)
         lines (event, dataLines))
  = last (map eventOf (filter isEventLine lines)) event.
Proof.
  induction lines as [|line lines IH]; intros event dataLines;
    cbn [fold_left filter]; [reflexivity|].
  fold (isEventLine line). destruct (isEventLine line).
  - rewrite IH. cbn [map]. rewrite last_cons. reflexivity.
  - destruct (startsWith line (lit "data:")); apply IH.
Qed.

End EventKind.

(** X7. The event kind of a frame is what follows the prefix of its
    last [event:] line, trimmed, and [message] when the frame has no
    such line; the lines that are neither [event:] nor [data:] lines
    change nothing. *)
Theorem event_kind_is_last_event_line :
  forall lines : list jsstring,
    fst (parseLines lines)
    = last (map (fun line => trim (slice line 6 None))
                (filter (fun line => startsWith line (lit "event:")) lines))
           (lit "message")
    /\ parseLines lines
       = parseLines (filter (fun line => startsWith line (lit "event:")
                                         || startsWith line (lit "data:")) lines).
Proof.
  intros lines. split.
  - unfold parseLines. apply parseLines_event.
  - unfold parseLines. generalize (lit "message", @nil jsstring).
    induction lines as [|line lines IH]; intros st; cbn [fold_left filter];
      [reflexivity|].
    destruct (startsWith line (lit "event:")) eqn:E; cbn [orb].
    + cbn [fold_left]. rewrite E. apply IH.
    + destruct (startsWith line (lit "data:")) eqn:D.
      * cbn [fold_left]. rewrite E, D. apply IH.
      * apply IH.
Qed.

(** ** A callback that throws *)

Section ThrowingCallback.

Variable JSON_parse : jsstring -> option JSValue.
Variable L : Labels.
Variable callback : list ProgressCall -> ProgressCall -> option Thrown.

Local Abbreviation pump := (pump JSON_parse L (Some callback)).
Local Abbreviation Quiet := (Quiet callback).
Local Abbreviation beforeThrow := (beforeThrow callback).
Local Abbreviation stoppedAtThrow := (stoppedAtThrow callback).

Lemma quiet_middle calls :
  Quiet calls ->
  forall pre call post, calls = pre ++ call :: post -> callback pre call = None.
Proof.
  induction 1 as [|calls last Q IH N]; intros pre call post E.
  - destruct pre; discriminate.
  - apply snoc_eq_middle in E as [(_ & -> & ->)|(post' & _ & ->)].
    + assumption.
    + apply (IH pre call post'). reflexivity.
Qed.

Lemma pump_stoppedAtThrow reads : stoppedAtThrow (pump reads initial).
Proof.
  apply (pump_invariant JSON_parse L (Some callback) beforeThrow stoppedAtThrow).
  - intros s s'. unfold observe. intros [= E P G _] [U Q]. split.
    + revert U. apply unsettled_same; assumption.
    + rewrite <- G. assumption.
  - intros s event dataStr c [U Q] H.
    assert (unsettled (recordFrame (event, dataStr) s)) as U'
      by (revert U; apply unsettled_same; reflexivity).
    inversion H; subst; clear H;
      try (left; rewrite ?safeReject_progress, ?safeResolve_progress; exact Q);
      try (split; [assumption|exact Q]).
    + match goal with E : Some _ = Some _ |- _ => injection E as <- end.
      split; [revert U'; apply unsettled_same; reflexivity|].
      cbn [recordProgress recordFrame progress] in *.
      apply Quiet_snoc; assumption.
    + match goal with E : Some _ = Some _ |- _ => injection E as <- end.
      right.
      exists (progress s),
        (getProp data (lit "pct"), getProp data (lit "message")), e.
      rewrite safeReject_progress.
      match goal with
      | |- context [safeReject e ?x] =>
          destruct (safeReject_unsettled e x) as [A B];
          [revert U'; apply unsettled_same; reflexivity|]
      end.
      cbn [recordProgress recordFrame progress] in *. repeat split; assumption.
  - intros s [_ Q]. left. assumption.
  - intros s e [_ Q]. left. rewrite safeReject_progress. assumption.
  - split; [split; reflexivity|constructor].
Qed.

End ThrowingCallback.

(** X8. When the progress callback throws on a call, that call is the
    last one it receives: the session is settled and the promise is
    rejected with what the callback threw. *)
Theorem callback_exception_rejects :
  forall JSON_parse L callback reads pre call post e,
    progress (pump JSON_parse L (Some callback) reads initial)
    = pre ++ call :: post ->
    callback pre call = Some e ->
    post = []
    /\ settled (pump JSON_parse L (Some callback) reads initial) = true
    /\ promise (pump JSON_parse L (Some callback) reads initial) = [Rejected e].
Proof.
  intros JSON_parse L callback reads pre call post e G T.
  destruct (pump_stoppedAtThrow JSON_parse L callback reads)
    as [Q|(calls & last & e' & G' & Q & T' & S & P)].
  - rewrite (quiet_middle callback _ Q _ _ _ G) in T. discriminate.
  - rewrite G in G'. symmetry in G'.
    apply snoc_eq_middle in G' as [(-> & -> & ->)|(post' & -> & ->)].
    + rewrite T in T'. injection T' as <-. auto.
    + rewrite (quiet_middle callback _ Q _ _ _ eq_refl) in T. discriminate.
Qed.

(** X9. A read that is rejected while the session is streaming rejects
    the promise with the very reason of the read, unchanged: the stream
    readers do not wrap or translate it. *)
Theorem read_error_passes_through :
  forall JSON_parse L onProgress reads e rest,
    settled (pump JSON_parse L onProgress reads initial) = false ->
    pump JSON_parse L onProgress (reads ++ ReadError e :: rest) initial
    = settle (Rejected e) (pump JSON_parse L onProgress reads initial).
Proof.
  intros JSON_parse L onProgress reads e rest E.
  rewrite pump_app_streaming by assumption.
  cbn [Api.pump]. unfold safeReject. rewrite E. reflexivity.
Qed.

(** * Further properties of the request executor *)


(** X11. The request executor returns a value only for a response that
    is [ok] and whose body could be read: the JSON value of the body
    when the response declares a JSON content type, and the body text
    itself otherwise. *)
Theorem request_returns_only_ok :
  forall JSON_parse (o : Http.FetchOutcome) (v : JSValue),
    Http.request JSON_parse o = Http.Returned v ->
    exists res t,
      o = Http.Responded res /\ ok res = true /\ text res = inr t
      /\ (if Http.isJson res then JSON_parse t = Some v else v = JString t).
Proof.
  intros JSON_parse o v. unfold Http.request, Http.tryBlock.
  destruct o as [res|e]; [|discriminate].
  destruct (ok res) eqn:Ok; cbn [negb]; [|discriminate].
  unfold Http.json.
  destruct (Http.isJson res) eqn:J; cbn [negb];
    destruct (text res) as [e|t] eqn:T; try discriminate.
  - destruct (JSON_parse t) as [w|] eqn:P; [|discriminate].
    intros [= <-]. exists res, t. rewrite J. auto.
  - intros [= <-]. exists res, t. rewrite J. auto.
Qed.

(** X12. An abort, of [fetch] itself or of the reading of the body of a
    response that is [ok], is reported as the timeout error with status
    408, whatever the response was. *)
Theorem abort_is_reported_as_timeout :
  forall JSON_parse,
    (forall isError message,
        Http.request JSON_parse
          (Http.FetchThrew (Foreign isError (lit "AbortError") message))
        = Http.Threw timeoutError)
    /\ (forall res isError message,
          ok res = true ->
          text res = inl (Foreign isError (lit "AbortError") message) ->
          Http.request JSON_parse (Http.Responded res) = Http.Threw timeoutError).
Proof.
  intros JSON_parse. split.
  - intros isError message. reflexivity.
  - intros res isError message Ok T.
    unfold Http.request, Http.tryBlock, Http.json. rewrite Ok, T. cbn [negb].
    destruct (Http.isJson res); reflexivity.
Qed.

(** X13. For a response that is not [ok], a body that cannot be used
    leaves the fallback table: when the body cannot be read (whatever
    the reading throws, an abort included, is swallowed), when the
    response does not declare a JSON content type (the body text is not
    shown, whatever it says), and when a declared JSON body does not
    parse, the error has the message of the fallback table for the
    status and no code, trace id or details. *)
Theorem unusable_error_body_falls_back :
  forall JSON_parse (res : Response),
    ok res = false ->
    (exists e, text res = inl e)
    \/ Http.isJson res = false
    \/ (exists t, text res = inr t /\ JSON_parse t = None) ->
    Http.request JSON_parse (Http.Responded res)
    = Http.Threw (fallbackError (resStatus res)).
Proof.
  intros JSON_parse res Ok H.
  unfold Http.request, Http.tryBlock. rewrite Ok. cbn [negb Http.catchBlock].
  cbn [Http.isAbortError Http.instanceofError].
  assert (Errors.tryParseApiError (Http.errorPayload JSON_parse res) = None) as N.
  { unfold Http.errorPayload, Http.json.
    destruct H as [[e T]|[J|(t & T & P)]].
    - rewrite T. destruct (Http.isJson res); reflexivity.
    - rewrite J. destruct (text res) as [e|t]; [reflexivity|].
      unfold Errors.tryParseApiError. cbn [typeofObject negb].
      rewrite orb_true_r. reflexivity.
    - rewrite T, P. destruct (Http.isJson res); [reflexivity|].
      unfold Errors.tryParseApiError. cbn [typeofObject negb].
      rewrite orb_true_r. reflexivity. }
  unfold fallbackError, Http.errorOf. rewrite N. cbn [option_map].
  rewrite toUserErrorMessage_table. reflexivity.
Qed.

(** X14. For a response that is not [ok], declares a JSON content type
    and has a body that is a JSON object with string [message], [code]
    and [trace_id], the error carries the status of the response, the
    [code] and the [trace_id] of the body and its [details] (or
    [undefined]), also when the message is empty and the fallback text
    stands in for it. *)
Theorem structured_error_is_carried :
  forall JSON_parse (res : Response) t fields m c tr,
    ok res = false ->
    Http.isJson res = true ->
    text res = inr t ->
    JSON_parse t = Some (JObject fields) ->
    getProp (JObject fields) (lit "message") = JString m ->
    getProp (JObject fields) (lit "code") = JString c ->
    getProp (JObject fields) (lit "trace_id") = JString tr ->
    Http.request JSON_parse (Http.Responded res)
    = Http.Threw
        (Err {| messageArg :=
                  JString (if nonEmpty m then m else fallbackTable (resStatus res));
                status := Some (resStatus res);
                code := Some c;
                traceId := Some tr;
                details := getProp (JObject fields) (lit "details") |}).
Proof.
  intros JSON_parse res t fields m c tr Ok J T P Hm Hc Ht.
  unfold Http.request, Http.tryBlock. rewrite Ok. cbn [negb Http.catchBlock].
  cbn [Http.isAbortError Http.instanceofError].
  assert (Errors.tryParseApiError (Http.errorPayload JSON_parse res)
          = Some {| Errors.message := m; Errors.code := c; Errors.trace_id := tr;
                    Errors.details := getProp (JObject fields) (lit "details") |}) as E.
  { unfold Http.errorPayload, Http.json. rewrite J, T, P.
    unfold Errors.tryParseApiError. cbn [truthy typeofObject negb orb].
    rewrite Hm, Hc, Ht. reflexivity. }
  unfold Http.errorOf. rewrite E, toUserErrorMessage_table. reflexivity.
Qed.

(** X15. The user message of an error is never empty, whatever the
    structured error and the status are, and also when no status is
    given. *)
Theorem user_error_message_is_never_empty :
  forall (apiErr : option Errors.ApiErrorShape) (status : option Z),
    nonEmpty (Errors.toUserErrorMessage apiErr status) = true.
Proof.
  intros apiErr status. unfold Errors.toUserErrorMessage.
  destruct apiErr as [a|].
  - destruct (nonEmpty (Errors.message a)) eqn:N; [assumption|].
    repeat match goal with
           | |- context [if ?c then _ else _] => destruct c
           end; reflexivity.
  - repeat match goal with
           | |- context [if ?c then _ else _] => destruct c
           end; reflexivity.
Qed.

(** * Properties of the base URL *)

Section BaseUrl.

Import Env.

Lemma endsWith_snoc s c : endsWith (s ++ [c]) [c] = true.
Proof.
  unfold endsWith. rewrite rev_app_distr. cbn. rewrite Z.eqb_refl. reflexivity.
Qed.

Lemma endsWith_last s c : endsWith s [c] = true -> exists s', s = s' ++ [c].
Proof.
  unfold endsWith. cbn [rev app]. destruct (rev s) as [|d r] eqn:R; [discriminate|].
  cbn. intros H. apply andb_prop in H as [H _]. apply Z.eqb_eq in H. subst d.
  exists (rev r). apply (f_equal (@rev Z)) in R. rewrite rev_involutive in R.
  exact R.
Qed.

Lemma slice_drop_last s c : slice (s ++ [c]) 0 (Some (-1)) = s.
Proof.
  unfold slice. rewrite length_app. cbn [List.length].
  replace (0 <? 0) with false by reflexivity.
  replace (-1 <? 0) with true by reflexivity.
  rewrite Z.min_l by lia. rewrite Z.max_l by lia.
  replace (Z.to_nat (Z.of_nat (List.length s + 1) + -1 - 0)) with (List.length s) by lia.
  cbn [Z.to_nat skipn]. rewrite firstn_app, Nat.sub_diag, firstn_all. cbn.
  apply app_nil_r.
Qed.

End BaseUrl.

(** X16. The URL of a path is the base, without one trailing slash if
    it has one, followed by the path with a leading slash: a base that
    does not end in a slash is taken whole, and of a base that ends in a
    slash exactly that one slash is left out.  With an empty base the
    URL is that rooted path alone, and a rooted path is left as it
    is. *)
Theorem apiUrl_shape :
  forall base path : jsstring,
    startsWith (rooted path) (lit "/") = true
    /\ Env.apiUrl [] path = rooted path
    /\ Env.apiUrl [] (Env.apiUrl [] path) = Env.apiUrl [] path
    /\ exists root,
         Env.apiUrl base path = root ++ rooted path
         /\ ((Env.endsWith base (lit "/") = false /\ root = base)
             \/ base = root ++ lit "/").
Proof.
  intros base path.
  assert (startsWith (rooted path) (lit "/") = true) as R.
  { unfold rooted. destruct (startsWith path (lit "/")) eqn:E; [assumption|].
    cbn. reflexivity. }
  assert (forall p, Env.apiUrl [] p = rooted p) as A.
  { intros p. unfold Env.apiUrl, rooted. destruct (startsWith p (lit "/")); reflexivity. }
  split; [exact R|]. split; [apply A|]. split.
  - rewrite !A. unfold rooted at 1. rewrite R. reflexivity.
  - unfold Env.apiUrl. fold (rooted path).
    replace (if negb (startsWith path (lit "/")) then lit "/" ++ path else path)
      with (rooted path)
      by (unfold rooted; destruct (startsWith path (lit "/")); reflexivity).
    destruct base as [|c base]; cbn [nonEmpty negb].
    + exists []. split; [reflexivity|]. left. split; reflexivity.
    + destruct (Env.endsWith (c :: base) (lit "/")) eqn:E.
      * apply endsWith_last in E as [s' E]. rewrite E.
        change (lit "/") with [47]. rewrite slice_drop_last.
        exists s'. split; [reflexivity|]. right. reflexivity.
      * exists (c :: base). split; [reflexivity|]. left. split; reflexivity.
Qed.

(** X17. A trailing slash on the base makes no difference: a base that
    does not end in a slash and the same base with a slash added give
    the same URLs (so the base that is a slash alone counts as empty). *)
Theorem apiUrl_trailing_slash :
  forall base path : jsstring,
    Env.endsWith base (lit "/") = false ->
    Env.apiUrl (base ++ lit "/") path = Env.apiUrl base path.
Proof.
  intros base path E. unfold Env.apiUrl.
  change (lit "/") with [47] in *.
  rewrite endsWith_snoc, slice_drop_last, E.
  destruct base; reflexivity.
Qed.

(** * Properties of the request that is sent *)

Section Objects.

Import Client.

Lemma eqs_spec a b : reflect (a = b) (eqs a b).
Proof.
  destruct (eqs a b) eqn:E; constructor.
  - apply eqs_eq. assumption.
  - intros ->. rewrite eqs_same in E. discriminate.
Qed.

Lemma objGet_objSet k v o k' :
  objGet (objSet k v o) k' = if eqs k k' then Some v else objGet o k'.
Proof.
  induction o as [|[k0 v0] o IH]; cbn [objSet objGet].
  - reflexivity.
  - destruct (eqs_spec k0 k) as [->|N]; cbn [objGet].
    + destruct (eqs k k'); reflexivity.
    + rewrite IH. destruct (eqs_spec k0 k') as [->|N'].
      * destruct (eqs_spec k k') as [->|]; [contradiction|reflexivity].
      * reflexivity.
Qed.

Lemma objGet_absent o k : ~ In k (map fst o) -> objGet o k = None.
Proof.
  induction o as [|[k0 v0] o IH]; cbn; [reflexivity|]. intros N.
  destruct (eqs_spec k0 k) as [->|]; [exfalso; auto|]. apply IH. auto.
Qed.

Lemma objGet_assign source : forall target k,
  NoDup (map fst source) ->
  objGet (assign target source) k =
  match objGet source k with
  | Some v => Some v
  | None => objGet target k
  end.
Proof.
  unfold assign.
  induction source as [|[k0 v0] source IH]; intros target k D; cbn [fold_left].
  - reflexivity.
  - cbn [map fst] in D. inversion D as [|? ? Notin D']; subst.
    rewrite IH by assumption. cbn [fst snd objGet].
    rewrite objGet_objSet.
    destruct (eqs_spec k0 k) as [->|].
    + rewrite objGet_absent by assumption. reflexivity.
    + reflexivity.
Qed.

End Objects.

(** X18. In merged headers the second object wins: a header is the one
    of the second object when it has one of that name, and the one of
    the first object otherwise; an absent object counts as empty. *)
Theorem merged_headers_precedence :
  forall (a b : option Client.Headers) (k : jsstring),
    NoDup (map fst (Client.orEmpty a)) ->
    NoDup (map fst (Client.orEmpty b)) ->
    Client.objGet (Client.mergeHeaders a b) k =
    match Client.objGet (Client.orEmpty b) k with
    | Some v => Some v
    | None => Client.objGet (Client.orEmpty a) k
    end.
Proof.
  intros a b k Da Db. unfold Client.mergeHeaders.
  rewrite !objGet_assign by assumption. cbn [Client.objGet].
  destruct (Client.objGet (Client.orEmpty b) k); [reflexivity|].
  destruct (Client.objGet (Client.orEmpty a) k); reflexivity.
Qed.

(** X19. The headers that are sent are the merged headers, but for
    [Content-Type] when the body is sent as JSON text: then a
    [Content-Type] that the caller or the client's defaults supply is
    kept as it is, and only when there is none it is set to
    [application/json].  A request without body, and a request with a
    raw body (a form upload), gets no [Content-Type] from the client. *)
Theorem content_type_is_only_defaulted :
  forall numberToString JSON_stringify base defaultHeaders
         (opts : Client.HttpOptions) (k : jsstring),
    Client.objGet
      (Client.initHeaders
         (Client.prepare numberToString JSON_stringify base defaultHeaders opts)) k
    = if eqs (lit "Content-Type") k && sendsJson opts
      then Some (match Client.objGet (mergedHeaders defaultHeaders opts)
                                     (lit "Content-Type") with
                 | Some v => v
                 | None => lit "application/json"
                 end)
      else Client.objGet (mergedHeaders defaultHeaders opts) k.
Proof.
  intros numberToString JSON_stringify base defaultHeaders opts k.
  unfold Client.prepare, sendsJson. fold (mergedHeaders defaultHeaders opts).
  destruct (Client.hasBody (Client.body opts)); cbn [andb];
    [destruct (Client.rawBody opts); cbn [negb]|];
    cbn [Client.initHeaders]; rewrite ?andb_false_r; try reflexivity.
  rewrite objGet_objSet, andb_true_r. reflexivity.
Qed.

(** ** The query string *)

Section Query.

Import Client Url.

Variable numberToString : number -> jsstring.

Local Abbreviation String_ := (String_ numberToString).
Local Abbreviation queryStep := (queryStep numberToString).

Lemma queryStep_filter entries : forall params,
  fold_left queryStep entries params
  = fold_left queryStep (filter present entries) params.
Proof.
  induction entries as [|kv entries IH]; intros params; cbn [fold_left filter];
    [reflexivity|].
  destruct (present kv) eqn:P.
  - cbn [fold_left]. apply IH.
  - replace (queryStep params kv) with params
      by (unfold queryStep; unfold present in P; rewrite P; reflexivity).
    apply IH.
Qed.

Lemma paramsSet_nonEmpty k v params : paramsSet k v params <> [].
Proof. destruct params as [|[k' v'] params]; cbn; [|destruct (eqs k' k)]; discriminate. Qed.

Lemma queryStep_isCons entries : forall params,
  isCons (fold_left queryStep entries params)
  = isCons params || existsb present entries.
Proof.
  induction entries as [|kv entries IH]; intros params; cbn [fold_left existsb].
  - rewrite orb_false_r. reflexivity.
  - rewrite IH. unfold queryStep, present.
    destruct (isPresent (snd kv)).
    + pose proof (paramsSet_nonEmpty (usv (fst kv)) (usv (String_ (snd kv))) params) as N.
      destruct (paramsSet _ _ params); [contradiction|].
      cbn. rewrite orb_true_r. reflexivity.
    + reflexivity.
Qed.

Lemma nonEmpty_app_cons (a b : jsstring) c : nonEmpty (a ++ c :: b) = true.
Proof. destruct a; reflexivity. Qed.

Lemma serializeParams_nonEmpty params :
  nonEmpty (serializeParams params) = isCons params.
Proof.
  destruct params as [|[k v] [|kv params]]; cbn [serializeParams isCons];
    [reflexivity| |]; apply nonEmpty_app_cons.
Qed.

Lemma serializeParams_join params :
  serializeParams params
  = join (lit "&")
         (map (fun kv => formEncode (fst kv) ++ lit "=" ++ formEncode (snd kv)) params).
Proof.
  induction params as [|[k v] params IH]; [reflexivity|].
  destruct params as [|kv params]; [reflexivity|].
  change (serializeParams ((k, v) :: kv :: params))
    with (formEncode k ++ [61] ++ formEncode v ++ [38] ++ serializeParams (kv :: params)).
  rewrite IH. cbn [map join fst snd]. change (lit "=") with [61].
  change (lit "&") with [38]. rewrite <- !app_assoc. reflexivity.
Qed.

Lemma paramsSet_fresh k v params :
  ~ In k (map fst params) -> paramsSet k v params = params ++ [(k, v)].
Proof.
  induction params as [|[k' v'] params IH]; cbn; [reflexivity|]. intros N.
  destruct (eqs_spec k' k) as [->|]; [exfalso; auto|].
  rewrite IH by auto. reflexivity.
Qed.

Lemma queryStep_distinct entries : forall params,
  NoDup (map fst params ++ map (fun kv => usv (fst kv)) (filter present entries)) ->
  fold_left queryStep entries params
  = params ++ map (fun kv => (usv (fst kv), usv (String_ (snd kv))))
                  (filter present entries).
Proof.
  induction entries as [|kv entries IH]; intros params D; cbn [fold_left filter].
  - cbn. rewrite app_nil_r. reflexivity.
  - cbn [filter] in D. destruct (present kv) eqn:P.
    + replace (queryStep params kv)
        with (paramsSet (usv (fst kv)) (usv (String_ (snd kv))) params)
        by (unfold queryStep; unfold present in P; rewrite P; reflexivity).
      cbn [map] in D |- *.
      rewrite paramsSet_fresh.
      * rewrite IH.
        -- rewrite <- app_assoc. reflexivity.
        -- rewrite map_app. cbn [map fst]. rewrite <- app_assoc. exact D.
      * apply NoDup_remove_2 in D. intros I. apply D. apply in_or_app. auto.
    + replace (queryStep params kv) with params
        by (unfold queryStep; unfold present in P; rewrite P; reflexivity).
      apply IH. exact D.
Qed.

Lemma buildQuery_nonEmpty entries :
  nonEmpty (serializeParams (queryParams numberToString entries))
  = existsb present entries.
Proof.
  rewrite serializeParams_nonEmpty. unfold queryParams.
  apply (queryStep_isCons entries []).
Qed.

End Query.

(** X20. The query string leaves out the parameters that are [null] or
    [undefined]: it is the query string of the other parameters.  It is
    empty exactly when no parameter is left (or no query is given), and
    begins with a question mark otherwise. *)
Theorem query_drops_absent_values :
  forall numberToString (entries : list (jsstring * Client.QueryValue)),
    Client.buildQuery numberToString (Some entries)
    = Client.buildQuery numberToString
        (Some (filter (fun kv => Client.isPresent (snd kv)) entries))
    /\ nonEmpty (Client.buildQuery numberToString (Some entries))
       = existsb (fun kv => Client.isPresent (snd kv)) entries
    /\ startsWith (Client.buildQuery numberToString (Some entries)) (lit "?")
       = existsb (fun kv => Client.isPresent (snd kv)) entries
    /\ Client.buildQuery numberToString None = [].
Proof.
  intros numberToString entries.
  pose proof (buildQuery_nonEmpty numberToString entries) as N.
  unfold present in N.
  split; [|split; [|split; [|reflexivity]]].
  - unfold Client.buildQuery.
    change (Client.queryParams numberToString entries)
      with (fold_left (queryStep numberToString) entries []).
    rewrite (queryStep_filter numberToString entries []). reflexivity.
  - unfold Client.buildQuery. cbv zeta. rewrite N.
    destruct (existsb _ entries); reflexivity.
  - unfold Client.buildQuery. cbv zeta. rewrite N.
    destruct (existsb _ entries); reflexivity.
Qed.

(** X21. When the names of the parameters that are present are distinct
    as sequences of scalar values (as the keys of an object are, unless
    they differ only in surrogates without partner), the query string is
    a question mark and the present parameters in their order, each
    written as its form-encoded name, an equals sign and its form-encoded
    value as a string, with ampersands between them. *)
Theorem query_of_distinct_names :
  forall numberToString (entries : list (jsstring * Client.QueryValue)),
    NoDup (map (fun kv => Url.usv (fst kv))
               (filter (fun kv => Client.isPresent (snd kv)) entries)) ->
    Client.buildQuery numberToString (Some entries)
    = if existsb (fun kv => Client.isPresent (snd kv)) entries
      then lit "?"
           ++ join (lit "&")
                (map (fun kv => Url.formEncode (Url.usv (fst kv)) ++ lit "="
                                ++ Url.formEncode
                                     (Url.usv (Client.String_ numberToString (snd kv))))
                     (filter (fun kv => Client.isPresent (snd kv)) entries))
      else [].
Proof.
  intros numberToString entries D.
  pose proof (buildQuery_nonEmpty numberToString entries) as N.
  unfold present in N.
  unfold Client.buildQuery. cbv zeta. rewrite N.
  destruct (existsb _ entries); [|reflexivity].
  change (Client.queryParams numberToString entries)
    with (fold_left (queryStep numberToString) entries []).
  rewrite (queryStep_distinct numberToString entries []) by exact D.
  cbn [app]. rewrite serializeParams_join, map_map. reflexivity.
Qed.

(** * Properties of the encoders, and of what reaches a URL *)

Section Encoders.

Import Url.

Lemma codePoints_inRange_bounded n : forall s,
  (List.length s <= n)%nat -> isString s -> Forall inRange (codePoints s).
Proof.
  induction n as [|n IH]; intros s Len W.
  - destruct s; [constructor|cbn in Len; lia].
  - destruct s as [|c s]; [constructor|].
    inversion W as [|? ? Hc W']; subst. cbn [codePoints].
    destruct (isHighSurrogate c) eqn:Hi.
    + destruct s as [|d s]; [repeat constructor|].
      inversion W' as [|? ? Hd W'']; subst.
      destruct (isLowSurrogate d) eqn:Lo.
      * constructor.
        -- unfold isHighSurrogate, isLowSurrogate in *.
           apply andb_prop in Hi as [H1 H2]. apply andb_prop in Lo as [H3 H4].
           apply Z.leb_le in H1, H2, H3, H4. unfold inRange. lia.
        -- apply IH; [cbn in Len; lia|assumption].
      * constructor; [exact I|]. apply IH; [cbn in Len |- *; lia|assumption].
    + destruct (isLowSurrogate c).
      * constructor; [exact I|]. apply IH; [cbn in Len; lia|assumption].
      * constructor; [unfold inRange; lia|]. apply IH; [cbn in Len; lia|assumption].
Qed.

Lemma codePoints_inRange s : isString s -> Forall inRange (codePoints s).
Proof. apply (codePoints_inRange_bounded (List.length s)). lia. Qed.

Lemma utf8Bytes_range cp :
  0 <= cp <= 0x10FFFF -> Forall (fun b => 0 <= b <= 255) (utf8Bytes cp).
Proof.
  intros R. unfold utf8Bytes.
  change 0x3F with (Z.ones 6).
  rewrite !Z.land_ones, !Z.shiftr_div_pow2 by lia.
  change (2 ^ 6) with 64. change (2 ^ 12) with 4096. change (2 ^ 18) with 262144.
  destruct (Z.leb_spec cp 0x7F); [repeat constructor; lia|].
  destruct (Z.leb_spec cp 0x7FF);
    [repeat constructor; Z.div_mod_to_equations; lia|].
  destruct (Z.leb_spec cp 0xFFFF);
    repeat constructor; Z.div_mod_to_equations; lia.
Qed.

Lemma hexChar_alphaNumeric n : 0 <= n <= 15 -> isAlphaNumeric (hexChar n) = true.
Proof.
  intros R. unfold hexChar, isAlphaNumeric.
  destruct (Z.ltb_spec n 10);
    rewrite !orb_true_iff, !andb_true_iff, !Z.leb_le; lia.
Qed.

Lemma percent_chars b :
  0 <= b <= 255 ->
  Forall (fun c => isAlphaNumeric c = true \/ c = 37) (percent b).
Proof.
  intros R. unfold percent.
  change 0xF with (Z.ones 4). rewrite Z.land_ones, Z.shiftr_div_pow2 by lia.
  change (2 ^ 4) with 16.
  constructor; [right; reflexivity|].
  constructor; [left; apply hexChar_alphaNumeric; Z.div_mod_to_equations; lia|].
  constructor; [left; apply hexChar_alphaNumeric; Z.div_mod_to_equations; lia|].
  constructor.
Qed.

Lemma alphaNumeric_unescaped c : isAlphaNumeric c = true -> isUnescaped c = true.
Proof. intros H. unfold isUnescaped. rewrite H. reflexivity. Qed.

Lemma alphaNumeric_formSafe c : isAlphaNumeric c = true -> isFormSafe c = true.
Proof. intros H. unfold isFormSafe. rewrite H. reflexivity. Qed.

Lemma Forall_flat_map {A B} (P : B -> Prop) (f : A -> list B) l :
  (forall x, In x l -> Forall P (f x)) -> Forall P (flat_map f l).
Proof.
  induction l as [|x l IH]; intros H; cbn; [constructor|].
  apply Forall_app. split; [apply H; left; reflexivity|].
  apply IH. intros y I. apply H. right. assumption.
Qed.

Lemma utf16_isString cp : 0 <= cp <= 0x10FFFF -> isString (Text.utf16 cp).
Proof.
  intros R. unfold Text.utf16, isString.
  change 0x3FF with (Z.ones 10). rewrite Z.land_ones, Z.shiftr_div_pow2 by lia.
  change (2 ^ 10) with 1024.
  destruct (Z.leb_spec cp 0xFFFF);
    repeat constructor; Z.div_mod_to_equations; lia.
Qed.

Lemma usv_isString s : isString s -> isString (usv s).
Proof.
  intros W. unfold usv. apply Forall_flat_map. intros cp Icp.
  pose proof (codePoints_inRange s W) as R.
  rewrite Forall_forall in R. specialize (R cp Icp).
  apply utf16_isString. destruct cp; [exact R|lia].
Qed.

Lemma encodeCodePoints_chars cps : forall out,
  Forall inRange cps ->
  encodeCodePoints cps = Some out ->
  Forall isUriChar out.
Proof.
  induction cps as [|[cp|] cps IH]; intros out R; cbn [encodeCodePoints].
  - intros [= <-]. constructor.
  - inversion R as [|? ? Hc R']; subst. cbn in Hc.
    destruct (encodeCodePoints cps) as [rest|]; [|discriminate].
    intros [= <-]. apply Forall_app. split; [|apply IH; auto].
    destruct (isUnescaped cp) eqn:U.
    + constructor; [left; assumption|constructor].
    + apply Forall_flat_map. intros b Ib.
      pose proof (utf8Bytes_range cp Hc) as B.
      rewrite Forall_forall in B. specialize (B b Ib).
      eapply Forall_impl; [|apply percent_chars; exact B].
      intros c [A| ->]; [left; apply alphaNumeric_unescaped; assumption|right; reflexivity].
  - discriminate.
Qed.

Lemma formByte_chars b : 0 <= b <= 255 -> Forall isFormChar (formByte b).
Proof.
  intros R. unfold formByte.
  destruct (b =? 32); [constructor; [right; right; reflexivity|constructor]|].
  destruct (isFormSafe b) eqn:S; [constructor; [left; assumption|constructor]|].
  eapply Forall_impl; [|apply percent_chars; exact R].
  intros c [A| ->]; [left; apply alphaNumeric_formSafe; assumption|right; left; reflexivity].
Qed.

Lemma formEncode_chars s : isString s -> Forall isFormChar (formEncode s).
Proof.
  intros W. unfold formEncode. apply Forall_flat_map. intros cp Icp.
  pose proof (codePoints_inRange s W) as R.
  rewrite Forall_forall in R. specialize (R cp Icp).
  apply Forall_flat_map. intros b Ib.
  assert (0 <= match cp with Some c => c | None => 65533 end <= 0x10FFFF) as Rc
    by (destruct cp; [exact R|lia]).
  pose proof (utf8Bytes_range _ Rc) as B.
  rewrite Forall_forall in B. apply formByte_chars. apply B. exact Ib.
Qed.

End Encoders.

(** X22. [encodeURIComponent], on a string, writes only letters,
    digits, the marks [- _ . ! ~ * ' ( )] and percent signs; so the
    identifier that [getDatasetSummary], [getModelSchema] and
    [getModelSummary] put at the end of their paths brings no slash,
    question mark, hash sign, ampersand or space into the path: the
    call either throws the URI error without any request, or makes the
    one request for the prefix followed by the encoded identifier. *)
Theorem encoded_identifier_is_one_segment :
  forall (request : Client.HttpOptions -> Http.Outcome) (prefix id : jsstring),
    isString id ->
    (Url.encodeURIComponent id = None
     /\ Calls.withId request prefix id = Http.Threw Calls.uriError)
    \/ exists encoded,
         Url.encodeURIComponent id = Some encoded
         /\ Calls.withId request prefix id = request (Calls.get (prefix ++ encoded))
         /\ Forall (fun c => Url.isUnescaped c = true \/ c = 37) encoded
         /\ ~ In 47 encoded /\ ~ In 63 encoded /\ ~ In 35 encoded
         /\ ~ In 38 encoded /\ ~ In 32 encoded.
Proof.
  intros request prefix id W. unfold Calls.withId.
  destruct (Url.encodeURIComponent id) as [encoded|] eqn:E; [right|left; auto].
  exists encoded.
  assert (Forall isUriChar encoded) as F.
  { apply (encodeCodePoints_chars (Url.codePoints id)); [|exact E].
    apply codePoints_inRange. exact W. }
  repeat split; try assumption;
    intros I; rewrite Forall_forall in F; apply F in I;
    destruct I as [I|I]; discriminate.
Qed.

Section QueryChars.

Import Client Url.

Variable numberToString : number -> jsstring.

Lemma paramsSet_proper k v params :
  isString k -> isString v -> Forall properParam params ->
  Forall properParam (paramsSet k v params).
Proof.
  intros Wk Wv. induction params as [|[k' v'] params IH]; intros F; cbn [paramsSet].
  - repeat constructor; assumption.
  - inversion F as [|? ? [Hk Hv] F']; subst. cbn [fst snd] in *.
    destruct (eqs k' k).
    + constructor; [split; assumption|].
      apply Forall_forall. intros x I. apply filter_In in I as [I _].
      rewrite Forall_forall in F'. auto.
    + constructor; [split; assumption|]. apply IH. assumption.
Qed.

Lemma queryParams_proper entries :
  (forall kv, In kv entries -> isPresent (snd kv) = true ->
              isString (fst kv) /\ isString (String_ numberToString (snd kv))) ->
  Forall properParam (queryParams numberToString entries).
Proof.
  unfold queryParams. generalize (@nil (jsstring * jsstring)) (Forall_nil properParam).
  induction entries as [|kv entries IH]; intros params F H; cbn [fold_left];
    [assumption|].
  apply IH.
  - destruct (isPresent (snd kv)) eqn:P; [|assumption].
    destruct (H kv (or_introl eq_refl) P) as [Wk Wv].
    apply paramsSet_proper; [apply usv_isString| apply usv_isString|]; assumption.
  - intros kv' I. apply H. right. assumption.
Qed.

Lemma join_chars (P : Z -> Prop) sep l :
  Forall P sep -> Forall (Forall P) l -> Forall P (join sep l).
Proof.
  intros S. induction l as [|x l IH]; intros F; [constructor|].
  inversion F as [|? ? Hx F']; subst.
  destruct l as [|y l]; [exact Hx|].
  change (join sep (x :: y :: l)) with (x ++ sep ++ join sep (y :: l)).
  apply Forall_app. split; [exact Hx|]. apply Forall_app. split; [exact S|].
  apply IH. exact F'.
Qed.

Lemma serializeParams_chars params :
  Forall properParam params -> Forall isQueryChar (serializeParams params).
Proof.
  intros F. rewrite serializeParams_join. apply join_chars.
  - constructor; [right; right; left; reflexivity|constructor].
  - apply Forall_map. eapply Forall_impl; [|exact F].
    intros [k v] [Wk Wv]. cbn [fst snd] in *.
    apply Forall_app. split.
    + eapply Forall_impl; [|apply formEncode_chars; exact Wk]. intros c H. left. exact H.
    + apply Forall_app. split.
      * constructor; [right; left; reflexivity|constructor].
      * eapply Forall_impl; [|apply formEncode_chars; exact Wv]. intros c H. left. exact H.
Qed.

End QueryChars.

(** X23. The query string of parameters whose names and values are
    strings proper is made of letters, digits, the marks [* - . _],
    percent signs, plus signs, equals signs, ampersands and the leading
    question mark: no space, hash sign, slash or quote can get from a
    name or a value into the URL. *)
Theorem query_string_alphabet :
  forall numberToString (entries : list (jsstring * Client.QueryValue)),
    (forall kv, In kv entries -> Client.isPresent (snd kv) = true ->
                isString (fst kv)
                /\ isString (Client.String_ numberToString (snd kv))) ->
    Forall (fun c => Url.isFormSafe c = true
                     \/ c = 37 \/ c = 43 \/ c = 61 \/ c = 38 \/ c = 63)
           (Client.buildQuery numberToString (Some entries)).
Proof.
  intros numberToString entries H.
  pose proof (serializeParams_chars _ (queryParams_proper numberToString entries H)) as F.
  assert (forall c, isQueryChar c ->
                    Url.isFormSafe c = true
                    \/ c = 37 \/ c = 43 \/ c = 61 \/ c = 38 \/ c = 63) as Q.
  { intros c [[A|[A|A]]|[A|[A|A]]]; auto 10. }
  unfold Client.buildQuery. cbv zeta.
  destruct (nonEmpty _); [|constructor].
  constructor; [auto 10|].
  eapply Forall_impl; [exact Q|exact F].
Qed.

(** * Properties of [getModelDetails] *)

Section ModelDetails.

Import Calls.

Variable request : Client.HttpOptions -> Http.Outcome.
Variable stringOf : JSValue -> jsstring.
Variable syntaxErrorText : jsstring -> jsstring.

Local Abbreviation tryCandidates := (tryCandidates request stringOf syntaxErrorText).
Local Abbreviation messageText := (messageText stringOf syntaxErrorText).
Local Abbreviation threw := (threw request).

Lemma tryCandidates_returned candidates : forall lastErr v requested,
  tryCandidates candidates lastErr = (Http.Returned v, requested) ->
  exists before path after,
    candidates = before ++ path :: after
    /\ requested = before ++ [path]
    /\ request (get path) = Http.Returned v
    /\ Forall threw before.
Proof.
  induction candidates as [|path candidates IH]; intros lastErr v requested;
    cbn [Calls.tryCandidates]; [discriminate|].
  unfold tryGetTrainResponse.
  destruct (request (get path)) as [w|e] eqn:R.
  - intros [= <- <-]. exists [], path, candidates. repeat split; auto.
  - destruct (Calls.tryCandidates _ _ _ candidates (Some e)) as [o req] eqn:T.
    intros [= -> <-].
    destruct (IH _ _ _ T) as (before & p & after & -> & -> & Rp & F).
    exists (path :: before), p, after. repeat split; auto.
    constructor; [exists e; exact R|exact F].
Qed.

End ModelDetails.

(** X24. When [getModelDetails] returns, it returns what the first of
    its three candidate paths (details, then the bare model path, then
    metadata) returned for which the request did not throw: the requests
    for the candidates before it threw, and no candidate after it was
    requested. *)
Theorem model_details_first_success :
  forall request stringOf syntaxErrorText (modelId : jsstring) v requested,
    Calls.getModelDetails request stringOf syntaxErrorText modelId
    = (Http.Returned v, requested) ->
    exists id before path after,
      Url.encodeURIComponent modelId = Some id
      /\ [lit "/models/details/" ++ id; lit "/models/" ++ id;
          lit "/models/metadata/" ++ id] = before ++ path :: after
      /\ requested = before ++ [path]
      /\ request (Calls.get path) = Http.Returned v
      /\ Forall (fun p => exists e, request (Calls.get p) = Http.Threw e) before.
Proof.
  intros request stringOf syntaxErrorText modelId v requested.
  unfold Calls.getModelDetails.
  destruct (Url.encodeURIComponent modelId) as [id|]; [|discriminate].
  intros T. apply tryCandidates_returned in T
    as (before & path & after & C & R & P & F).
  exists id, before, path, after. auto.
Qed.

(** X25. [getModelDetails] throws in two cases only.  When the model
    identifier cannot be encoded, it throws the URI error and requests
    nothing.  When the requests for all three candidates throw, it has
    requested the three in order and throws a new plain error, without
    status, code or trace id, whose message is the message of the error
    of the last candidate, or its own fixed message when that message
    is empty; the errors of the first two candidates are dropped. *)
Theorem model_details_failure :
  forall request stringOf syntaxErrorText (modelId : jsstring) e requested,
    Calls.getModelDetails request stringOf syntaxErrorText modelId
    = (Http.Threw e, requested) ->
    (Url.encodeURIComponent modelId = None
     /\ e = Calls.uriError /\ requested = [])
    \/ exists id e1 e2 e3,
         Url.encodeURIComponent modelId = Some id
         /\ request (Calls.get (lit "/models/details/" ++ id)) = Http.Threw e1
         /\ request (Calls.get (lit "/models/" ++ id)) = Http.Threw e2
         /\ request (Calls.get (lit "/models/metadata/" ++ id)) = Http.Threw e3
         /\ requested = [lit "/models/details/" ++ id; lit "/models/" ++ id;
                         lit "/models/metadata/" ++ id]
         /\ e = detailsError (Calls.messageText stringOf syntaxErrorText e3).
Proof.
  intros request stringOf syntaxErrorText modelId e requested.
  unfold Calls.getModelDetails.
  destruct (Url.encodeURIComponent modelId) as [id|];
    [|intros [= <- <-]; left; auto].
  unfold Calls.candidatesFor. cbn [Calls.tryCandidates].
  unfold Calls.tryGetTrainResponse.
  destruct (request (Calls.get (lit "/models/details/" ++ id))) as [v1|e1] eqn:R1;
    [discriminate|].
  destruct (request (Calls.get (lit "/models/" ++ id))) as [v2|e2] eqn:R2;
    [discriminate|].
  destruct (request (Calls.get (lit "/models/metadata/" ++ id))) as [v3|e3] eqn:R3;
    [discriminate|].
  intros [= <- <-]. right. exists id, e1, e2, e3. repeat split; auto.
Qed.

(** * The further properties at work *)

Lemma isStringb_sound s : isStringb s = true -> isString s.
Proof.
  intros H. apply Forall_forall. intros c I.
  unfold isStringb in H. rewrite forallb_forall in H. specialize (H c I).
  apply andb_prop in H as [A B]. apply Z.leb_le in A, B. auto.
Qed.

Ltac distinct_names :=
  vm_compute;
  repeat (constructor; [cbn; intuition discriminate|]); constructor.

Lemma complete_frame_resolves_witness :
  promise (pump Json.parse trainLabels None
             [Chunk progressChunk; Chunk completeChunk] initial)
  = [Resolved (JObject [(lit "model_id", JString (lit "m1"))])].
Proof.
  destruct (complete_frame_resolves Json.parse trainLabels None
              [Chunk progressChunk; Chunk completeChunk]
              [(lit "progress", tv "{'pct':10}")] (tv "{'model_id':'m1'}") []
              (JObject [(lit "model_id", JString (lit "m1"))])
              eq_refl eq_refl eq_refl) as [_ P].
  exact P.
Defined.

Lemma error_frame_rejects_witness :
  promise (pump Json.parse predictLabels None
             [Chunk (bytes "event: error|data: {'detail':'x'}||"); Done] initial)
  = [Rejected (Err (newError (JString (lit "Prediction failed."))))].
Proof.
  destruct (error_frame_rejects Json.parse predictLabels None
              [Chunk (bytes "event: error|data: {'detail':'x'}||"); Done]
              [] (tv "{'detail':'x'}") []
              (JObject [(lit "detail", JString (lit "x"))])
              eq_refl eq_refl eq_refl) as [_ P].
  exact P.
Defined.

Lemma streaming_buffer_has_no_delimiter_witness :
  settled (pump Json.parse trainLabels None
             (map Chunk [progressChunk; bytes "event: comp"]) initial) = false
  /\ indexOf (buffer (pump Json.parse trainLabels None
                        (map Chunk [progressChunk; bytes "event: comp"]) initial))
             [LF; LF] = -1.
Proof.
  split; [reflexivity|].
  apply (streaming_buffer_has_no_delimiter Json.parse trainLabels None
           [progressChunk; bytes "event: comp"]).
  reflexivity.
Defined.

Lemma streaming_buffer_keeps_the_rest_witness :
  exists blocks,
    snd (decode newTextDecoder (progressChunk ++ bytes "event: comp"))
    = List.concat (map (fun block => block ++ [LF; LF]) blocks) ++ tv "event: comp"
    /\ [(lit "progress", tv "{'pct':10}")]
       = map frameOf (filter (fun block => nonEmpty (trim block)) blocks).
Proof.
  destruct (streaming_buffer_keeps_the_rest Json.parse trainLabels None
              [progressChunk; bytes "event: comp"] eq_refl)
    as [_ (blocks & C & _ & _ & F)].
  exists blocks. split; [exact C|exact F].
Defined.

Lemma unknown_event_ignored_witness :
  exists s',
    iteration Json.parse trainLabels None 25
      (setBuffer (tv "event: heartbeat|data: {}||event: progress|") initial)
    = Normal s'
    /\ buffer s' = tv "event: progress|"
    /\ settled s' = false /\ promise s' = [] /\ progress s' = [].
Proof.
  destruct (unknown_event_ignored Json.parse trainLabels None
              (setBuffer (tv "event: heartbeat|data: {}||event: progress|") initial)
              (lit "heartbeat") [tv "{}"] (JObject []))
    as (s' & I & B & S & P & G & _).
  - apply Z.leb_le. reflexivity.
  - reflexivity.
  - reflexivity.
  - reflexivity.
  - intros H. vm_compute in H. discriminate.
  - intros H. vm_compute in H. discriminate.
  - intros H. vm_compute in H. discriminate.
  - exists s'. repeat split; [exact I|exact B|exact S|exact P|exact G].
Defined.

Lemma callback_exception_rejects_witness :
  promise (pump Json.parse trainLabels (Some throwsOnSecond)
             [Chunk progressChunk; Chunk progressChunk; Chunk completeChunk] initial)
  = [Rejected (Foreign true (lit "Error") (lit "boom"))].
Proof.
  destruct (callback_exception_rejects Json.parse trainLabels throwsOnSecond
              [Chunk progressChunk; Chunk progressChunk; Chunk completeChunk]
              [(JNumber (Finite 10 0), JUndefined)]
              (JNumber (Finite 10 0), JUndefined) []
              (Foreign true (lit "Error") (lit "boom")) eq_refl eq_refl)
    as (_ & _ & P).
  exact P.
Defined.

Lemma read_error_passes_through_witness :
  promise (pump Json.parse trainLabels None
             ([Chunk progressChunk]
              ++ [ReadError (Foreign true (lit "TypeError") (lit "network error"))])
             initial)
  = [Rejected (Foreign true (lit "TypeError") (lit "network error"))].
Proof.
  rewrite (read_error_passes_through Json.parse trainLabels None
             [Chunk progressChunk]
             (Foreign true (lit "TypeError") (lit "network error")) [] eq_refl).
  reflexivity.
Defined.


Lemma request_returns_only_ok_witness :
  exists res t,
    Http.Responded
      {| ok := true; resStatus := 200; contentType := Some (lit "application/json");
         text := inr (tv "{'status':'ok'}"); body := None |}
    = Http.Responded res
    /\ ok res = true /\ text res = inr t.
Proof.
  destruct (request_returns_only_ok Json.parse
              (Http.Responded
                 {| ok := true; resStatus := 200;
                    contentType := Some (lit "application/json");
                    text := inr (tv "{'status':'ok'}"); body := None |})
              (JObject [(lit "status", JString (lit "ok"))]) eq_refl)
    as (res & t & E & O & T & _).
  exists res, t. auto.
Defined.

Lemma abort_is_reported_as_timeout_witness :
  Http.request Json.parse
    (Http.Responded
       {| ok := true; resStatus := 200; contentType := Some (lit "application/json");
          text := inl (Foreign true (lit "AbortError") (lit "aborted")); body := None |})
  = Http.Threw timeoutError.
Proof.
  apply (proj2 (abort_is_reported_as_timeout Json.parse) _ true (lit "aborted"));
    reflexivity.
Defined.

Lemma unusable_error_body_falls_back_witness :
  Http.request Json.parse
    (Http.Responded
       {| ok := false; resStatus := 502; contentType := Some (lit "text/plain");
          text := inr (lit "Bad gateway: upstream timed out"); body := None |})
  = Http.Threw (fallbackError 502).
Proof.
  apply (unusable_error_body_falls_back Json.parse
           {| ok := false; resStatus := 502; contentType := Some (lit "text/plain");
              text := inr (lit "Bad gateway: upstream timed out"); body := None |}).
  - reflexivity.
  - right. left. reflexivity.
Defined.

Lemma structured_error_is_carried_witness :
  Http.request Json.parse
    (Http.Responded
       {| ok := false; resStatus := 422; contentType := Some (lit "application/json");
          text := inr (tv "{'message':'','code':'E7','trace_id':'t9','details':[1]}");
          body := None |})
  = Http.Threw
      (Err {| messageArg :=
                JString (lit "Invalid input. Please check the form and try again.");
              status := Some 422; code := Some (lit "E7"); traceId := Some (lit "t9");
              details := JArray [JNumber (Finite 1 0)] |}).
Proof.
  exact (structured_error_is_carried Json.parse
           {| ok := false; resStatus := 422;
              contentType := Some (lit "application/json");
              text := inr (tv "{'message':'','code':'E7','trace_id':'t9','details':[1]}");
              body := None |}
           (tv "{'message':'','code':'E7','trace_id':'t9','details':[1]}")
           [(lit "message", JString []); (lit "code", JString (lit "E7"));
            (lit "trace_id", JString (lit "t9"));
            (lit "details", JArray [JNumber (Finite 1 0)])]
           [] (lit "E7") (lit "t9")
           eq_refl eq_refl eq_refl eq_refl eq_refl eq_refl eq_refl).
Defined.

Lemma apiUrl_trailing_slash_witness :
  Env.apiUrl (lit "https://api.example.com" ++ lit "/") (lit "models/train")
  = lit "https://api.example.com/models/train".
Proof.
  rewrite (apiUrl_trailing_slash (lit "https://api.example.com") (lit "models/train") eq_refl).
  reflexivity.
Defined.

Lemma merged_headers_precedence_witness :
  Client.objGet
    (Client.mergeHeaders
       (Some [(lit "Accept", lit "text/html"); (lit "X-Client", lit "wizard")])
       (Some [(lit "Accept", lit "application/json")]))
    (lit "Accept")
  = Some (lit "application/json").
Proof.
  rewrite (merged_headers_precedence
             (Some [(lit "Accept", lit "text/html"); (lit "X-Client", lit "wizard")])
             (Some [(lit "Accept", lit "application/json")]) (lit "Accept")).
  - reflexivity.
  - distinct_names.
  - distinct_names.
Defined.

Lemma query_of_distinct_names_witness :
  Client.buildQuery showInteger (Some sampleQuery)
  = lit "?include+models=true&page=12".
Proof.
  rewrite (query_of_distinct_names showInteger sampleQuery).
  - reflexivity.
  - distinct_names.
Defined.

Lemma query_string_alphabet_witness :
  ~ In 32 (Client.buildQuery showInteger (Some sampleQuery)).
Proof.
  pose proof (query_string_alphabet showInteger sampleQuery) as F.
  rewrite Forall_forall in F. intros I. apply F in I.
  - destruct I as [I|[I|[I|[I|[I|I]]]]]; discriminate.
  - intros kv K P. split; apply isStringb_sound;
      repeat (destruct K as [<-|K]; [reflexivity|]); destruct K.
Defined.

Lemma encoded_identifier_is_one_segment_witness :
  Calls.getModelSchema bareModelOnly (lit "m 1/x")
  = bareModelOnly (Calls.get (lit "/models/schema/m%201%2Fx")).
Proof.
  destruct (encoded_identifier_is_one_segment bareModelOnly (lit "/models/schema/")
              (lit "m 1/x") (isStringb_sound (lit "m 1/x") eq_refl))
    as [[E _]|(encoded & E & W & _)].
  - discriminate.
  - unfold Calls.getModelSchema. rewrite W.
    injection E as <-. reflexivity.
Defined.

Lemma model_details_first_success_witness :
  exists before path after,
    [lit "/models/details/m%201"; lit "/models/m%201"; lit "/models/metadata/m%201"]
    = before ++ path :: after
    /\ [lit "/models/details/m%201"; lit "/models/m%201"] = before ++ [path].
Proof.
  destruct (model_details_first_success bareModelOnly (fun _ => []) (fun t => t)
              (lit "m 1") (JObject [(lit "model_id", JString (lit "m 1"))])
              [lit "/models/details/m%201"; lit "/models/m%201"] eq_refl)
    as (id & before & path & after & E & C & R & _).
  injection E as <-. exists before, path, after. split; [exact C|exact R].
Defined.

Lemma model_details_failure_witness :
  Calls.getModelDetails noModelPaths (fun _ => []) (fun t => t) (lit "m1")
  = (Http.Threw (detailsError (lit "Not found.")),
     [lit "/models/details/m1"; lit "/models/m1"; lit "/models/metadata/m1"]).
Proof.
  destruct (model_details_failure noModelPaths (fun _ => []) (fun t => t) (lit "m1")
              (detailsError (lit "Not found."))
              [lit "/models/details/m1"; lit "/models/m1"; lit "/models/metadata/m1"]
              eq_refl)
    as [(E & _)|(id & e1 & e2 & e3 & _ & _ & _ & _ & R & M)].
  - discriminate.
  - reflexivity.
Defined.
